(** * A shallow embedding of [optimization/sqlite-db-optimizer.py]

    The class [DatabaseOptimizer] talks to SQLite through Python's
    [sqlite3] module.  The methods of the class are embedded as
    computations of a small state-and-exception monad [Py]; the [sqlite3]
    module and the database file behind it form the [World] the methods
    run against.

    What is modelled of SQLite:
    - the rows of [sqlite_master];
    - for every statement the optimizer builds by writing a table or a
      column name into it, what SQLite answers to the text of that
      statement: the rows it returns or the error it raises.  The name is
      written unquoted, so the text may be one SQLite rejects (a table
      named [order]) or reads in its own way; nothing is assumed about
      that, nor about which rows a [SELECT ... LIMIT 100] returns or in
      which order;
    - statements that are not catalogue reads ([CREATE INDEX ...],
      [VACUUM]) are handed to the [engine] of the world, an arbitrary
      function of the statement text and the database that applies the
      statement or rejects it;
    - every call that can fail in [sqlite3] ([connect], [execute],
      [commit]) first consults a schedule of injected [faults], so the
      theorems cover every pattern of such failures. *)

From stdpp Require Import base option list strings gmap.
From Stdlib Require Import ZArith Lia Ascii.

Local Open Scope string_scope.
Local Open Scope list_scope.

#[local] Set Warnings "-clear-no-such-hyp".

(** ** Python values and exceptions *)

(** The Python objects [sqlite3] returns for the five SQLite storage
    classes: [None], [int], [float] (kept as its IEEE-754 binary64 bit
    pattern), [str] and [bytes]. *)
Inductive SqlValue : Type :=
| VNull
| VInt (z : Z)
| VReal (bits : Z)
| VText (s : string)
| VBlob (b : list Byte.byte).

(** Truth value of an object in a boolean context. *)
Definition truthy (v : SqlValue) : bool :=
  match v with
  | VNull => false
  | VInt z => negb (Z.eqb z 0)
  | VReal bits => negb (Z.eqb (Z.land bits (Z.ones 63)) 0)
  | VText s => negb (String.eqb s "")
  | VBlob b => match b with [] => false | _ :: _ => true end
  end.

(** [isinstance(v, str)] *)
Definition isinstance_str (v : SqlValue) : bool :=
  match v with VText _ => true | _ => false end.

(** [s.startswith(p)] *)
Fixpoint startswith (p s : string) : bool :=
  match p, s with
  | EmptyString, _ => true
  | String a p', String b s' => if Ascii.eqb a b then startswith p' s' else false
  | String _ _, EmptyString => false
  end.

(** [d in s] for two strings: [d] occurs in [s] as a substring. *)
Fixpoint str_in (d s : string) : bool :=
  startswith d s ||
  match s with
  | EmptyString => false
  | String _ s' => str_in d s'
  end.

(** The three kinds of exception the [except] clauses of the module tell
    apart: [sqlite3.Error] and its subclasses, any other subclass of
    [Exception], and a [BaseException] outside [Exception] (such as
    [KeyboardInterrupt]). *)
Inductive ExcClass : Type :=
| Sqlite3Error
| OtherException
| NotAnException.

Record PyExc : Type := mkExc {
  exc_class : ExcClass;
  exc_str : string            (* [str(e)], what an f-string prints *)
}.

Definition is_sqlite3_Error (e : PyExc) : bool :=
  match exc_class e with Sqlite3Error => true | _ => false end.

Definition is_Exception (e : PyExc) : bool :=
  match exc_class e with NotAnException => false | _ => true end.

Definition AttributeError (attr : string) : PyExc :=
  mkExc OtherException ("'NoneType' object has no attribute '" +:+ attr +:+ "'").

Definition ProgrammingError_closed : PyExc :=
  mkExc Sqlite3Error "Cannot operate on a closed database.".

Definition OperationalError (msg : string) : PyExc :=
  mkExc Sqlite3Error msg.

Inductive Outcome (A : Type) : Type :=
| Return (a : A)
| Raise (e : PyExc).
Arguments Return {A} a.
Arguments Raise {A} e.

(** ** The database *)

(** A row of [sqlite_master]. *)
Record MasterRow : Type := mkMaster {
  m_type : string;
  m_name : string;
  m_tbl_name : string
}.

(** A row of [PRAGMA table_info]: (cid, name, type, notnull, dflt_value, pk). *)
Record ColumnRow : Type := mkColumn {
  col_cid : Z;
  col_name : string;
  col_type : string;
  col_notnull : Z;
  col_dflt_value : SqlValue;
  col_pk : Z
}.

(** A row of [PRAGMA index_list]: (seq, name, unique, origin, partial). *)
Record IndexRow : Type := mkIndex {
  il_seq : Z;
  il_name : string;
  il_unique : Z;
  il_origin : string;
  il_partial : Z
}.

(** A row of [PRAGMA foreign_key_list]:
    (id, seq, table, from, to, on_update, on_delete, match). *)
Record ForeignKeyRow : Type := mkFk {
  fk_id : Z;
  fk_seq : Z;
  fk_table : string;
  fk_from : string;
  fk_to : SqlValue;
  fk_on_update : string;
  fk_on_delete : string;
  fk_match : string
}.

(** The database as the optimizer observes it: the rows of
    [sqlite_master], and the answer of SQLite to each statement written
    with a name in it, by the text of the statement.  For [SELECT] the
    answer lists the first component of each row, which is all the
    optimizer reads. *)
Record Database : Type := mkDatabase {
  sqlite_master : list MasterRow;
  table_info_answer : string → Outcome (list ColumnRow);
  index_list_answer : string → Outcome (list IndexRow);
  foreign_key_list_answer : string → Outcome (list ForeignKeyRow);
  select_answer : string → Outcome (list SqlValue)
}.

(** [SELECT name FROM sqlite_master WHERE type='table'] *)
Definition master_table_names (db : Database) : list string :=
  m_name <$> filter (λ r, m_type r = "table") (sqlite_master db).

(** The statements the optimizer writes a name into. *)
Definition table_info_sql (table_name : string) : string :=
  "PRAGMA table_info(" +:+ table_name +:+ ")".

Definition index_list_sql (table_name : string) : string :=
  "PRAGMA index_list(" +:+ table_name +:+ ")".

Definition foreign_key_list_sql (table_name : string) : string :=
  "PRAGMA foreign_key_list(" +:+ table_name +:+ ")".

Definition sample_sql (column_name table_name : string) : string :=
  "SELECT " +:+ column_name +:+ " FROM " +:+ table_name +:+ " LIMIT 100".

(** The rows of an answer, none when the statement raised. *)
Definition rows_of {A} (answer : Outcome (list A)) : list A :=
  match answer with
  | Return rows => rows
  | Raise _ => []
  end.

(** The rows the database answers to the three pragmas the optimizer
    writes for the table name [t]. *)
Definition table_info (t : string) (db : Database) : list ColumnRow :=
  rows_of (table_info_answer db (table_info_sql t)).

Definition index_list (t : string) (db : Database) : list IndexRow :=
  rows_of (index_list_answer db (index_list_sql t)).

Definition foreign_key_list (t : string) (db : Database) : list ForeignKeyRow :=
  rows_of (foreign_key_list_answer db (foreign_key_list_sql t)).

(** ** The world: the [sqlite3] module, the database and the logger *)

Definition ConnId : Type := nat.

Inductive Event : Type :=
| EvConnect (path : string) (h : option ConnId)   (* [None]: the call failed *)
| EvExecute (h : ConnId) (sql : string) (ok : bool)
| EvCommit (h : ConnId) (ok : bool)
| EvClose (h : ConnId).

Inductive LogLevel : Type := INFO | ERROR.

(** What SQLite does with a statement that changes the database: it is
    applied, or rejected with a message (raised by [sqlite3] as an
    [OperationalError]). *)
Inductive EngineResult : Type :=
| Applied (db : Database)
| Rejected (msg : string).

Record World : Type := mkWorld {
  database : Database;
  engine : string → Database → EngineResult;
  faults : list (option PyExc);
  next_conn : ConnId;
  open_conns : gset ConnId;
  trace : list Event;
  log : list (LogLevel * string)
}.

(** The instance attributes of a [DatabaseOptimizer].  [self.logger] writes
    to the [log] of the world.  A cursor is identified by the connection
    it was created on. *)
Record DatabaseOptimizer : Type := mkSelf {
  db_path : string;
  conn : option ConnId;
  cursor : option ConnId
}.

Record State : Type := mkState {
  self : DatabaseOptimizer;
  world : World
}.

(** One fallible call was made: its slot of the fault schedule is used up
    and the call is recorded. *)
Definition called (ev : Event) (db : Database) (w : World) : World :=
  mkWorld db (engine w) (tail (faults w)) (next_conn w) (open_conns w)
          (trace w ++ [ev]) (log w).

(** The fault injected into the next call, if any. *)
Definition next_fault (w : World) : option PyExc :=
  match faults w with
  | Some e :: _ => Some e
  | _ => None
  end.

Definition opened (path : string) (w : World) : World :=
  mkWorld (database w) (engine w) (tail (faults w)) (S (next_conn w))
          ({[next_conn w]} ∪ open_conns w)
          (trace w ++ [EvConnect path (Some (next_conn w))]) (log w).

Definition closed (h : ConnId) (w : World) : World :=
  mkWorld (database w) (engine w) (faults w) (next_conn w)
          (open_conns w ∖ {[h]}) (trace w ++ [EvClose h]) (log w).

Definition logged (lvl : LogLevel) (msg : string) (w : World) : World :=
  mkWorld (database w) (engine w) (faults w) (next_conn w) (open_conns w)
          (trace w) (log w ++ [(lvl, msg)]).

(** ** The monad of method bodies *)

Definition Py (A : Type) : Type := State → Outcome A * State.

Definition ret {A} (a : A) : Py A := λ st, (Return a, st).

Definition raise {A} (e : PyExc) : Py A := λ st, (Raise e, st).

Definition bind {A B} (m : Py A) (k : A → Py B) : Py B :=
  λ st, match m st with
        | (Return a, st') => k a st'
        | (Raise e, st') => (Raise e, st')
        end.

Notation "'do' x <- m ; k" := (bind m (λ x, k))
  (at level 10, x name, m at level 100, k at level 200, only parsing).
Notation "m ;; k" := (bind m (λ _, k))
  (at level 100, k at level 200, right associativity, only parsing).

(** [try: body  except C as e: handler e], where [catches] is the test
    [isinstance(e, C)]. *)
Definition try_except {A} (body : Py A) (catches : PyExc → bool)
    (handler : PyExc → Py A) : Py A :=
  λ st, match body st with
        | (Return a, st') => (Return a, st')
        | (Raise e, st') => if catches e then handler e st' else (Raise e, st')
        end.

(** [try: body  finally: cleanup]: the cleanup runs on every exit of the
    body; an exception of the cleanup replaces the outcome of the body. *)
Definition try_finally {A} (body : Py A) (cleanup : Py unit) : Py A :=
  λ st, match body st with
        | (r, st') =>
            match cleanup st' with
            | (Return _, st'') => (r, st'')
            | (Raise e, st'') => (Raise e, st'')
            end
        end.

(** [for x in xs: acc = body acc x] *)
Fixpoint for_fold {A B} (xs : list A) (acc : B) (body : B → A → Py B) : Py B :=
  match xs with
  | [] => ret acc
  | x :: xs' => do acc' <- body acc x; for_fold xs' acc' body
  end.

(** [for x in xs: body x] *)
Definition for_each {A} (xs : list A) (body : A → Py unit) : Py unit :=
  for_fold xs tt (λ _ x, body x).

Definition get_self : Py DatabaseOptimizer := λ st, (Return (self st), st).

Definition set_conn (h : ConnId) : Py unit :=
  λ st, (Return tt,
         mkState (mkSelf (db_path (self st)) (Some h) (cursor (self st))) (world st)).

Definition set_cursor (h : ConnId) : Py unit :=
  λ st, (Return tt,
         mkState (mkSelf (db_path (self st)) (conn (self st)) (Some h)) (world st)).

Definition logger_info (msg : string) : Py unit :=
  λ st, (Return tt, mkState (self st) (logged INFO msg (world st))).

Definition logger_error (msg : string) : Py unit :=
  λ st, (Return tt, mkState (self st) (logged ERROR msg (world st))).

(** ** The [sqlite3] calls *)

(** [sqlite3.connect(path)] *)
Definition sqlite3_connect (path : string) : Py ConnId :=
  λ st, let w := world st in
        match next_fault w with
        | Some e => (Raise e, mkState (self st) (called (EvConnect path None) (database w) w))
        | None => (Return (next_conn w), mkState (self st) (opened path w))
        end.

(** [self.cursor.execute(sql)] followed by [self.cursor.fetchall()], for a
    statement whose meaning on the database is [sem]. *)
Definition cursor_execute {A} (sql : string)
    (sem : Database → Outcome (A * Database)) : Py A :=
  λ st, let w := world st in
        match cursor (self st) with
        | None => (Raise (AttributeError "execute"), st)
        | Some h =>
            if decide (h ∈ open_conns w) then
              match next_fault w with
              | Some e =>
                  (Raise e, mkState (self st) (called (EvExecute h sql false) (database w) w))
              | None =>
                  match sem (database w) with
                  | Raise e =>
                      (Raise e, mkState (self st) (called (EvExecute h sql false) (database w) w))
                  | Return (a, db') =>
                      (Return a, mkState (self st) (called (EvExecute h sql true) db' w))
                  end
              end
            else (Raise ProgrammingError_closed, st)
        end.

(** A statement that only reads. *)
Definition cursor_query {A} (sql : string) (answer : Database → Outcome A) : Py A :=
  cursor_execute sql
    (λ db, match answer db with
           | Return a => Return (a, db)
           | Raise e => Raise e
           end).

(** A statement handed to the engine; [fetchall] is not called on it. *)
Definition cursor_run (sql : string) : Py unit :=
  λ st, cursor_execute sql
          (λ db, match engine (world st) sql db with
                 | Applied db' => Return (tt, db')
                 | Rejected msg => Raise (OperationalError msg)
                 end) st.

(** [self.conn.commit()] *)
Definition conn_commit : Py unit :=
  λ st, let w := world st in
        match conn (self st) with
        | None => (Raise (AttributeError "commit"), st)
        | Some h =>
            if decide (h ∈ open_conns w) then
              match next_fault w with
              | Some e =>
                  (Raise e, mkState (self st) (called (EvCommit h false) (database w) w))
              | None =>
                  (Return tt, mkState (self st) (called (EvCommit h true) (database w) w))
              end
            else (Raise ProgrammingError_closed, st)
        end.

(** [conn.close()]: closing a closed connection does nothing. *)
Definition conn_close (h : ConnId) : Py unit :=
  λ st, (Return tt, mkState (self st) (closed h (world st))).

(** ** The methods of [DatabaseOptimizer] *)

(** The value stored under a table name by [analyze_table_structure]. *)
Record TableAnalysis : Type := mkAnalysis {
  ta_columns : list ColumnRow;
  ta_indexes : list IndexRow;
  ta_foreign_keys : list ForeignKeyRow
}.

(** An element of the list built by [check_normalization]. *)
Record NormalizationIssue : Type := mkIssue {
  ni_table : string;
  ni_column : string;
  ni_issue : string;
  ni_sample : SqlValue
}.

(** An element of the list built by [suggest_indexes]. *)
Record IndexSuggestion : Type := mkSuggestion {
  s_table : string;
  s_column : string;
  s_suggestion : string;
  s_sql : string
}.

Record Report : Type := mkReport {
  table_analysis : gmap string TableAnalysis;
  normalization_issues : list NormalizationIssue;
  index_suggestions : list IndexSuggestion;
  query_optimizations : list string
}.

Definition select_table_names : Py (list string) :=
  cursor_query "SELECT name FROM sqlite_master WHERE type='table'"
    (λ db, Return (master_table_names db)).

(** [self.cursor.execute(f"PRAGMA table_info({table_name})")] and
    [fetchall()]: SQLite is handed the text and answers it, or raises. *)
Definition pragma_table_info (table_name : string) : Py (list ColumnRow) :=
  cursor_query (table_info_sql table_name)
    (λ db, table_info_answer db (table_info_sql table_name)).

Definition pragma_index_list (table_name : string) : Py (list IndexRow) :=
  cursor_query (index_list_sql table_name)
    (λ db, index_list_answer db (index_list_sql table_name)).

Definition pragma_foreign_key_list (table_name : string) : Py (list ForeignKeyRow) :=
  cursor_query (foreign_key_list_sql table_name)
    (λ db, foreign_key_list_answer db (foreign_key_list_sql table_name)).

(** [self.cursor.execute(f"SELECT {column_name} FROM {table_name} LIMIT 100")]
    and [fetchall()]; the values are the [sample[0]] of the rows. *)
Definition select_samples (column_name table_name : string) : Py (list SqlValue) :=
  cursor_query (sample_sql column_name table_name)
    (λ db, select_answer db (sample_sql column_name table_name)).

Definition connect : Py unit :=
  try_except
    (do o <- get_self;
     do h <- sqlite3_connect (db_path o);
     set_conn h ;;
     set_cursor h ;;
     logger_info ("Successfully connected to database: " +:+ db_path o))
    is_sqlite3_Error
    (λ e, logger_error ("Error connecting to database: " +:+ exc_str e) ;;
          raise e).

Definition close : Py unit :=
  do o <- get_self;
  match conn o with
  | Some h => conn_close h ;; logger_info "Database connection closed"
  | None => ret tt
  end.

Definition analyze_table_structure : Py (gmap string TableAnalysis) :=
  do tables <- select_table_names;
  for_fold tables ∅ (λ analysis table_name,
    do columns <- pragma_table_info table_name;
    do indexes <- pragma_index_list table_name;
    do foreign_keys <- pragma_foreign_key_list table_name;
    ret (<[table_name := mkAnalysis columns indexes foreign_keys]> analysis)).

Definition delimiters : list string := [","; ";"; "|"; "/"].

(** The body of [for sample in samples] for one sample [v] (the only
    element of the row tuple). *)
Definition check_sample (table_name column_name : string)
    (issues : list NormalizationIssue) (v : SqlValue) : list NormalizationIssue :=
  if truthy v && isinstance_str v then
    match v with
    | VText s =>
        if existsb (λ d, str_in d s) delimiters then
          issues ++ [mkIssue table_name column_name
                       "Possible 1NF violation - multiple values in single column" v]
        else issues
    | _ => issues
    end
  else issues.

Definition check_normalization : Py (list NormalizationIssue) :=
  do tables <- select_table_names;
  for_fold tables [] (λ issues table_name,
    do columns <- pragma_table_info table_name;
    for_fold columns issues (λ issues column,
      let column_name := col_name column in
      do samples <- select_samples column_name table_name;
      ret (foldl (check_sample table_name column_name) issues samples))).

(** The body of [for fk in foreign_keys]. *)
Definition suggest_for_fk (table_name : string) (existing_indexes : gset string)
    (suggestions : list IndexSuggestion) (fk : ForeignKeyRow) : list IndexSuggestion :=
  let idx_name := "idx_" +:+ table_name +:+ "_" +:+ fk_from fk in
  if decide (idx_name ∉ existing_indexes) then
    suggestions ++
      [mkSuggestion table_name (fk_from fk)
         ("Create index on foreign key column: " +:+ fk_from fk)
         ("CREATE INDEX " +:+ idx_name +:+ " ON " +:+ table_name +:+ "(" +:+ fk_from fk +:+ ")")]
  else suggestions.

Definition suggest_indexes : Py (list IndexSuggestion) :=
  do tables <- select_table_names;
  for_fold tables [] (λ suggestions table_name,
    do index_rows <- pragma_index_list table_name;
    let existing_indexes : gset string := list_to_set (il_name <$> index_rows) in
    do columns <- pragma_table_info table_name;
    do foreign_keys <- pragma_foreign_key_list table_name;
    ret (foldl (suggest_for_fk table_name existing_indexes) suggestions foreign_keys)).

Definition optimize_queries : Py (list string) :=
  ret [ "-- Use EXISTS instead of IN for better performance";
        "SELECT * FROM table1 WHERE EXISTS (SELECT 1 FROM table2 WHERE table2.id = table1.id)";
        "-- Use JOIN instead of subqueries where possible";
        "SELECT t1.*, t2.* FROM table1 t1 JOIN table2 t2 ON t1.id = t2.id";
        "-- Use EXPLAIN QUERY PLAN to analyze query performance";
        "EXPLAIN QUERY PLAN SELECT * FROM your_table WHERE your_column = 'value'" ].

(** The four entries of the report, in the order the dictionary display
    evaluates them. *)
Definition build_report : Py Report :=
  do ta <- analyze_table_structure;
  do ni <- check_normalization;
  do ix <- suggest_indexes;
  do qo <- optimize_queries;
  ret (mkReport ta ni ix qo).

Definition generate_optimization_report : Py Report :=
  try_finally
    (try_except
       (connect ;;
        do report <- build_report;
        ret report)
       is_Exception
       (λ e, logger_error ("Error generating optimization report: " +:+ exc_str e) ;;
             raise e))
    close.

(** The body of [for suggestion in suggestions]. *)
Definition apply_suggestion (suggestion : IndexSuggestion) : Py unit :=
  try_except
    (cursor_run (s_sql suggestion) ;;
     logger_info ("Created index: " +:+ s_sql suggestion))
    is_sqlite3_Error
    (λ e, logger_error ("Error creating index: " +:+ exc_str e)).

Definition execute_optimization (optimize_indexes vacuum : bool) : Py unit :=
  try_finally
    (try_except
       (connect ;;
        (if optimize_indexes then
           do suggestions <- suggest_indexes;
           for_each suggestions apply_suggestion
         else ret tt) ;;
        (if vacuum then
           cursor_run "VACUUM" ;;
           logger_info "Database vacuumed successfully"
         else ret tt) ;;
        conn_commit)
       is_Exception
       (λ e, logger_error ("Error during optimization execution: " +:+ exc_str e) ;;
             raise e))
    close.

(** [DatabaseOptimizer(db_path)] *)
Definition init (path : string) : DatabaseOptimizer := mkSelf path None None.

(** ** Example databases *)

Definition text_column (cid : Z) (name : string) : ColumnRow :=
  mkColumn cid name "TEXT" 0 VNull 0.

Definition int_column (cid : Z) (name : string) (pk : Z) : ColumnRow :=
  mkColumn cid name "INTEGER" 0 VNull pk.

(** The answers of an example database: the rows listed for a statement,
    by its text.  Any other text is refused. *)
Fixpoint answer_for {A} (answers : list (string * list A)) (sql : string)
  : Outcome (list A) :=
  match answers with
  | [] => Raise (OperationalError "incomplete input")
  | (text, rows) :: answers' =>
      if String.eqb text sql then Return rows else answer_for answers' sql
  end.

(** [orders(id, customer_id, notes)] with a foreign key
    [customer_id -> customers.id], no index, and a note ["a,b,c"];
    [customers(id, name)]. *)
Definition orders_columns : list ColumnRow :=
  [int_column 0 "id" 1; int_column 1 "customer_id" 0; text_column 2 "notes"].

Definition orders_foreign_keys : list ForeignKeyRow :=
  [mkFk 0 0 "customers" "customer_id" (VText "id") "NO ACTION" "NO ACTION" "NONE"].

Definition customers_columns : list ColumnRow :=
  [int_column 0 "id" 1; text_column 1 "name"].

Definition shop_samples : list (string * list SqlValue) :=
  [("SELECT id FROM customers LIMIT 100", [VInt 7; VInt 8]);
   ("SELECT name FROM customers LIMIT 100", [VText "Ann"; VText ""]);
   ("SELECT id FROM orders LIMIT 100", [VInt 1; VInt 2; VInt 3]);
   ("SELECT customer_id FROM orders LIMIT 100", [VInt 7; VInt 7; VInt 8]);
   ("SELECT notes FROM orders LIMIT 100", [VText "a,b,c"; VText "plain"; VNull])].

Definition shop_db : Database :=
  mkDatabase
    [mkMaster "table" "customers" "customers"; mkMaster "table" "orders" "orders"]
    (answer_for [("PRAGMA table_info(customers)", customers_columns);
                 ("PRAGMA table_info(orders)", orders_columns)])
    (answer_for [("PRAGMA index_list(customers)", []);
                 ("PRAGMA index_list(orders)", [])])
    (answer_for [("PRAGMA foreign_key_list(customers)", []);
                 ("PRAGMA foreign_key_list(orders)", orders_foreign_keys)])
    (answer_for shop_samples).

Definition quiet_engine : string → Database → EngineResult :=
  λ _ db, Applied db.

Definition fresh_world (db : Database) (fs : list (option PyExc)) : World :=
  mkWorld db quiet_engine fs 0 ∅ [] [].

Definition shop_state : State :=
  mkState (init "shop.db") (fresh_world shop_db []).

(** ** Reasoning about the read path: definitions *)

Definition is_execute (ev : Event) : bool :=
  match ev with EvExecute _ _ _ => true | _ => false end.

(** What a method that only issues catalogue reads may change: it uses up
    fault slots and records the statements it executed. *)
Record reads_only (st st' : State) : Prop := mkReadsOnly {
  ro_self : self st' = self st;
  ro_database : database (world st') = database (world st);
  ro_engine : engine (world st') = engine (world st);
  ro_next_conn : next_conn (world st') = next_conn (world st);
  ro_open_conns : open_conns (world st') = open_conns (world st);
  ro_log : log (world st') = log (world st);
  ro_faults : ∃ n, faults (world st') = drop n (faults (world st));
  ro_trace : ∃ evs, trace (world st') = trace (world st) ++ evs
                    ∧ Forall (λ ev, is_execute ev = true) evs
}.

(** A state in which every catalogue read goes through: the cursor belongs
    to an open connection and no fault is scheduled. *)
Definition healthy (st : State) : Prop :=
  (∃ h, cursor (self st) = Some h ∧ h ∈ open_conns (world st))
  ∧ faults (world st) = [].

(** Sequencing of pure outcomes. *)
Definition and_then {A B} (r : Outcome A) (k : A → Outcome B) : Outcome B :=
  match r with
  | Return a => k a
  | Raise e => Raise e
  end.

Fixpoint fold_outcome {A B} (f : B → A → Outcome B) (xs : list A) (acc : B) : Outcome B :=
  match xs with
  | [] => Return acc
  | x :: xs' => and_then (f acc x) (fold_outcome f xs')
  end.

(** [m] only reads, and what it returns is the function [d] of the
    database: whenever [m] returns, it returns what [d] gives, and in a
    healthy state the outcome of [m] is the outcome of [d]. *)
Definition denotes {A} (m : Py A) (d : Database → Outcome A) : Prop :=
  ∀ st,
    reads_only st (m st).2
    ∧ (∀ a, (m st).1 = Return a → d (database (world st)) = Return a)
    ∧ (healthy st → (m st).1 = d (database (world st))).

(** *** What the three analyses compute from the database *)

(** The dictionary built by [analyze_table_structure]. *)
Definition analysis_on (db : Database) : gmap string TableAnalysis :=
  foldl (λ analysis t,
           <[t := mkAnalysis (table_info t db) (index_list t db)
                    (foreign_key_list t db)]> analysis)
        ∅ (master_table_names db).

(** The issues one sampled value contributes. *)
Definition issues_for (t c : string) (v : SqlValue) : list NormalizationIssue :=
  check_sample t c [] v.

(** The values the database answers to the [SELECT] written for column
    [c] of table [t]. *)
Definition samples_of (t c : string) (db : Database) : list SqlValue :=
  rows_of (select_answer db (sample_sql c t)).

(** The issues in table-major order, then column order, then sample order. *)
Definition issues_on (db : Database) : list NormalizationIssue :=
  master_table_names db ≫= λ t,
  table_info t db ≫= λ col,
  samples_of t (col_name col) db ≫= issues_for t (col_name col).

Definition existing_indexes_of (t : string) (db : Database) : gset string :=
  list_to_set (il_name <$> index_list t db).

(** The suggestions one foreign-key row contributes. *)
Definition suggestions_for (t : string) (db : Database) (fk : ForeignKeyRow)
  : list IndexSuggestion :=
  suggest_for_fk t (existing_indexes_of t db) [] fk.

Definition suggestions_on (db : Database) : list IndexSuggestion :=
  master_table_names db ≫= λ t,
  foreign_key_list t db ≫= suggestions_for t db.

(** *** What the three analyses return or raise in a healthy state *)

(** [analyze_table_structure] on the answers of the database: the first
    pragma that raises ends the method with its error. *)
Definition analysis_outcome (db : Database) : Outcome (gmap string TableAnalysis) :=
  fold_outcome
    (λ analysis t,
       and_then (table_info_answer db (table_info_sql t)) (λ columns,
       and_then (index_list_answer db (index_list_sql t)) (λ indexes,
       and_then (foreign_key_list_answer db (foreign_key_list_sql t)) (λ foreign_keys,
       Return (<[t := mkAnalysis columns indexes foreign_keys]> analysis)))))
    (master_table_names db) ∅.

Definition issues_outcome (db : Database) : Outcome (list NormalizationIssue) :=
  fold_outcome
    (λ issues t,
       and_then (table_info_answer db (table_info_sql t)) (λ columns,
       fold_outcome
         (λ issues column,
            and_then (select_answer db (sample_sql (col_name column) t)) (λ samples,
            Return (foldl (check_sample t (col_name column)) issues samples)))
         columns issues))
    (master_table_names db) [].

Definition suggestions_outcome (db : Database) : Outcome (list IndexSuggestion) :=
  fold_outcome
    (λ suggestions t,
       and_then (index_list_answer db (index_list_sql t)) (λ index_rows,
       and_then (table_info_answer db (table_info_sql t)) (λ columns,
       and_then (foreign_key_list_answer db (foreign_key_list_sql t)) (λ foreign_keys,
       Return (foldl (suggest_for_fk t (list_to_set (il_name <$> index_rows)))
                     suggestions foreign_keys)))))
    (master_table_names db) [].

Definition query_advice : list string :=
  [ "-- Use EXISTS instead of IN for better performance";
    "SELECT * FROM table1 WHERE EXISTS (SELECT 1 FROM table2 WHERE table2.id = table1.id)";
    "-- Use JOIN instead of subqueries where possible";
    "SELECT t1.*, t2.* FROM table1 t1 JOIN table2 t2 ON t1.id = t2.id";
    "-- Use EXPLAIN QUERY PLAN to analyze query performance";
    "EXPLAIN QUERY PLAN SELECT * FROM your_table WHERE your_column = 'value'" ].

Definition report_outcome (db : Database) : Outcome Report :=
  and_then (analysis_outcome db) (λ ta,
  and_then (issues_outcome db) (λ ni,
  and_then (suggestions_outcome db) (λ ix,
  Return (mkReport ta ni ix query_advice)))).

(** *** Databases that answer the statements of the analyses *)

Definition is_Return {A} (r : Outcome A) : bool :=
  match r with
  | Return _ => true
  | Raise _ => false
  end.

(** SQLite answers the three pragmas written for every enumerated table. *)
Definition pragmas_answered (db : Database) : Prop :=
  Forall (λ t, is_Return (table_info_answer db (table_info_sql t)) = true
               ∧ is_Return (index_list_answer db (index_list_sql t)) = true
               ∧ is_Return (foreign_key_list_answer db (foreign_key_list_sql t)) = true)
         (master_table_names db).

(** SQLite answers [PRAGMA table_info] for every enumerated table and the
    [SELECT] written for each of the columns it lists. *)
Definition samples_answered (db : Database) : Prop :=
  Forall (λ t, is_Return (table_info_answer db (table_info_sql t)) = true
               ∧ Forall (λ col, is_Return (select_answer db
                                              (sample_sql (col_name col) t)) = true)
                        (table_info t db))
         (master_table_names db).

(** ** The vocabulary of the specification *)

(** [idx_<table>_<column>] *)
Definition index_name (t c : string) : string :=
  "idx_" +:+ t +:+ "_" +:+ c.

(** [CREATE INDEX idx_<table>_<column> ON <table>(<column>)] *)
Definition create_index_sql (t c : string) : string :=
  "CREATE INDEX idx_" +:+ t +:+ "_" +:+ c +:+ " ON " +:+ t +:+ "(" +:+ c +:+ ")".

(** The foreign-key descriptors of the schema, each with its table, in
    catalogue order. *)
Definition fk_rows (db : Database) : list (string * ForeignKeyRow) :=
  master_table_names db ≫= λ t, pair t <$> foreign_key_list t db.

(** The foreign-key relationships of the schema: SQLite numbers the
    foreign keys of a table, and the rows of [PRAGMA foreign_key_list] for
    the columns of one key carry its number in [id]. *)
Definition relationships (db : Database) : gset (string * Z) :=
  list_to_set ((λ d : string * ForeignKeyRow, (d.1, fk_id d.2)) <$> fk_rows db).

(** The table of the descriptor has an index named after it. *)
Definition covered (db : Database) (d : string * ForeignKeyRow) : Prop :=
  index_name d.1 (fk_from d.2) ∈ (il_name <$> index_list d.1 db).

#[local] Instance covered_dec db d : Decision (covered db d).
Proof. unfold covered. apply _. Defined.

(** The suggestion the specification expects for a descriptor. *)
Definition suggestion_of (d : string * ForeignKeyRow) : IndexSuggestion :=
  mkSuggestion d.1 (fk_from d.2)
    ("Create index on foreign key column: " +:+ fk_from d.2)
    (create_index_sql d.1 (fk_from d.2)).

(** The four characters the normalization check looks for. *)
Definition delimiter_chars : list ascii := [","; ";"; "|"; "/"]%char.

(** The text contains at least one of [,], [;], [|], [/]. *)
Definition has_delimiter (s : string) : Prop :=
  ∃ ch, ch ∈ delimiter_chars ∧ ch ∈ String.list_ascii_of_string s.

(** SQLite reserves the names that begin with [sqlite_] for its internal
    tables ([sqlite_sequence], [sqlite_stat1], ...). *)
Definition is_internal_name (name : string) : bool :=
  startswith "sqlite_" name.

(** *** More example databases and states *)

(** An optimizer on which [connect()] has succeeded, with the fault
    schedule [fs] still ahead. *)
Definition connected (db : Database) (fs : list (option PyExc)) : State :=
  mkState (mkSelf "shop.db" (Some 0) (Some 0))
    (mkWorld db quiet_engine fs 1 {[0]} [EvConnect "shop.db" (Some 0)]
       [(INFO, "Successfully connected to database: shop.db")]).

(** [shop_db] after [CREATE INDEX idx_orders_customer_id ON orders(customer_id)]. *)
Definition indexed_db : Database :=
  mkDatabase
    [mkMaster "table" "customers" "customers"; mkMaster "table" "orders" "orders";
     mkMaster "index" "idx_orders_customer_id" "orders"]
    (table_info_answer shop_db)
    (answer_for [("PRAGMA index_list(customers)", []);
                 ("PRAGMA index_list(orders)",
                  [mkIndex 0 "idx_orders_customer_id" 0 "c" 0])])
    (foreign_key_list_answer shop_db)
    (select_answer shop_db).

(** A database with one [AUTOINCREMENT] table: SQLite keeps the counters in
    the table [sqlite_sequence], which [sqlite_master] lists with type
    ['table']. *)
Definition autoincrement_db : Database :=
  mkDatabase
    [mkMaster "table" "users" "users";
     mkMaster "table" "sqlite_sequence" "sqlite_sequence"]
    (answer_for [("PRAGMA table_info(users)",
                  [int_column 0 "id" 1; text_column 1 "email"]);
                 ("PRAGMA table_info(sqlite_sequence)",
                  [mkColumn 0 "name" "" 0 VNull 0; mkColumn 1 "seq" "" 0 VNull 0])])
    (answer_for [("PRAGMA index_list(users)", []);
                 ("PRAGMA index_list(sqlite_sequence)", [])])
    (answer_for [("PRAGMA foreign_key_list(users)", []);
                 ("PRAGMA foreign_key_list(sqlite_sequence)", [])])
    (answer_for [("SELECT id FROM users LIMIT 100", [VInt 1]);
                 ("SELECT email FROM users LIMIT 100", [VText "ann@example.org"]);
                 ("SELECT name FROM sqlite_sequence LIMIT 100", [VText "users"]);
                 ("SELECT seq FROM sqlite_sequence LIMIT 100", [VInt 1])]).

(** [order_items] with the composite foreign key
    [(order_id, product_id) -> order_products(order_id, product_id)]:
    one relationship (one [id]), listed by [PRAGMA foreign_key_list] as one
    row per column. *)
Definition composite_fk_rows : list ForeignKeyRow :=
  [mkFk 0 0 "order_products" "order_id" (VText "order_id")
        "NO ACTION" "NO ACTION" "NONE";
   mkFk 0 1 "order_products" "product_id" (VText "product_id")
        "NO ACTION" "NO ACTION" "NONE"].

Definition composite_db : Database :=
  mkDatabase [mkMaster "table" "order_items" "order_items"]
    (answer_for [("PRAGMA table_info(order_items)",
                  [int_column 0 "order_id" 0; int_column 1 "product_id" 0;
                   int_column 2 "quantity" 0])])
    (answer_for [("PRAGMA index_list(order_items)", [])])
    (answer_for [("PRAGMA foreign_key_list(order_items)", composite_fk_rows)])
    (answer_for [("SELECT order_id FROM order_items LIMIT 100", []);
                 ("SELECT product_id FROM order_items LIMIT 100", []);
                 ("SELECT quantity FROM order_items LIMIT 100", [])]).

(** A database with a table named [order], a word SQLite does not read as
    a name: the statements written for it are syntax errors (SQLite's
    message puts the word between quotation marks, left out here). *)
Definition keyword_db : Database :=
  mkDatabase [mkMaster "table" "order" "order"]
    (λ _, Raise (OperationalError "near order: syntax error"))
    (λ _, Raise (OperationalError "near order: syntax error"))
    (λ _, Raise (OperationalError "near order: syntax error"))
    (λ _, Raise (OperationalError "near order: syntax error")).

(** ** The states the methods leave behind *)

(** After a successful [connect()]. *)
Definition after_connect (st : State) : State :=
  let h := next_conn (world st) in
  mkState (mkSelf (db_path (self st)) (Some h) (Some h))
    (logged INFO ("Successfully connected to database: " +:+ db_path (self st))
       (opened (db_path (self st)) (world st))).

(** After a [connect()] in which [sqlite3.connect] raised [e]. *)
Definition connect_failed (e : PyExc) (st : State) : State :=
  let w := called (EvConnect (db_path (self st)) None)
             (database (world st)) (world st) in
  mkState (self st)
    (if is_sqlite3_Error e
     then logged ERROR ("Error connecting to database: " +:+ exc_str e) w
     else w).

(** After [close()]. *)
Definition after_close (st : State) : State :=
  match conn (self st) with
  | Some h => mkState (self st)
                (logged INFO "Database connection closed" (closed h (world st)))
  | None => st
  end.

(** After the [except Exception as e] clause of a method, entered or not. *)
Definition after_except (prefix : string) (e : PyExc) (st : State) : State :=
  if is_Exception e
  then mkState (self st) (logged ERROR (prefix +:+ exc_str e) (world st))
  else st.

(** The statements of [execute_optimization] between [self.connect()] and
    the end of the [try] block. *)
Definition optimization_steps (optimize_indexes vacuum : bool) : Py unit :=
  (if optimize_indexes then
     do suggestions <- suggest_indexes;
     for_each suggestions apply_suggestion
   else ret tt) ;;
  (if vacuum then
     cursor_run "VACUUM" ;;
     logger_info "Database vacuumed successfully"
   else ret tt) ;;
  conn_commit.

(** What [generate_optimization_report] computes from the database. *)
Definition report_on (db : Database) : Report :=
  mkReport (analysis_on db) (issues_on db) (suggestions_on db)
    [ "-- Use EXISTS instead of IN for better performance";
      "SELECT * FROM table1 WHERE EXISTS (SELECT 1 FROM table2 WHERE table2.id = table1.id)";
      "-- Use JOIN instead of subqueries where possible";
      "SELECT t1.*, t2.* FROM table1 t1 JOIN table2 t2 ON t1.id = t2.id";
      "-- Use EXPLAIN QUERY PLAN to analyze query performance";
      "EXPLAIN QUERY PLAN SELECT * FROM your_table WHERE your_column = 'value'" ].

(** *** One pass of the index loop of [execute_optimization] *)

(** The world after the attempt to execute [sql] on connection [h], when
    the failure, if any, is an [sqlite3.Error]: the statement is recorded,
    and its success or its failure is logged. *)
Definition index_attempt (h : ConnId) (sql : string) (w : World) : World :=
  match next_fault w with
  | Some e =>
      logged ERROR ("Error creating index: " +:+ exc_str e)
        (called (EvExecute h sql false) (database w) w)
  | None =>
      match engine w sql (database w) with
      | Applied db' =>
          logged INFO ("Created index: " +:+ sql)
            (called (EvExecute h sql true) db' w)
      | Rejected msg =>
          logged ERROR ("Error creating index: " +:+ msg)
            (called (EvExecute h sql false) (database w) w)
      end
  end.

(** The call recorded for a suggestion, given how its attempt ended:
    [None] for success, [Some msg] for a failure with message [msg]. *)
Definition attempt_event (h : ConnId) (suggestion : IndexSuggestion)
    (failure : option string) : Event :=
  EvExecute h (s_sql suggestion) (bool_decide (failure = None)).

(** The line logged for a suggestion, given how its attempt ended. *)
Definition attempt_log (suggestion : IndexSuggestion) (failure : option string)
  : LogLevel * string :=
  match failure with
  | None => (INFO, "Created index: " +:+ s_sql suggestion)
  | Some msg => (ERROR, "Error creating index: " +:+ msg)
  end.

(** A database on whose [orders] table three foreign keys are declared,
    two of them on the same column. *)
Definition three_fk_db : Database :=
  mkDatabase [mkMaster "table" "orders" "orders"]
    (answer_for [("PRAGMA table_info(orders)",
                  [int_column 0 "id" 1; int_column 1 "customer_id" 0;
                   int_column 2 "item_id" 0])])
    (answer_for [("PRAGMA index_list(orders)", [])])
    (answer_for
       [("PRAGMA foreign_key_list(orders)",
         [mkFk 0 0 "customers" "customer_id" (VText "id") "NO ACTION" "NO ACTION" "NONE";
          mkFk 1 0 "clients" "customer_id" (VText "id") "NO ACTION" "NO ACTION" "NONE";
          mkFk 2 0 "items" "item_id" (VText "id") "NO ACTION" "NO ACTION" "NONE"])])
    (answer_for [("SELECT id FROM orders LIMIT 100", []);
                 ("SELECT customer_id FROM orders LIMIT 100", []);
                 ("SELECT item_id FROM orders LIMIT 100", [])]).

(** An engine that rejects a [CREATE INDEX] it has been handed before (the
    index exists by then) and every [VACUUM]; the statements applied are
    remembered as rows of type ['index'] of [sqlite_master]. *)
Definition strict_engine : string → Database → EngineResult :=
  λ sql db,
    if decide (sql = "VACUUM") then Rejected "database or disk is full"
    else if decide (sql ∈ (m_tbl_name <$> sqlite_master db))
    then Rejected "index already exists"
    else Applied (mkDatabase (sqlite_master db ++ [mkMaster "index" sql sql])
                    (table_info_answer db) (index_list_answer db)
                    (foreign_key_list_answer db) (select_answer db)).

Definition strict_state : State :=
  mkState (init "orders.db") (mkWorld three_fk_db strict_engine [] 0 ∅ [] []).

(** [shop_db] behind a connection on which the second statement fails. *)
Definition locked_state : State :=
  mkState (init "shop.db")
    (fresh_world shop_db
       [None; None; Some (OperationalError "database is locked")]).

(** ** Further vocabulary *)

(** The test [check_normalization] applies to a sampled value: a text in
    which one of the delimiters occurs. *)
Definition is_flagged (v : SqlValue) : bool :=
  match v with
  | VText s => existsb (λ d, str_in d s) delimiters
  | _ => false
  end.

(** The values [check_normalization] samples, each with its table and
    column, in the order they are sampled. *)
Definition sampled_values (db : Database) : list (string * string * SqlValue) :=
  master_table_names db ≫= λ t,
  table_info t db ≫= λ col,
  (λ v, (t, col_name col, v)) <$> samples_of t (col_name col) db.

(** The issue reported for a flagged sample. *)
Definition issue_of (x : string * string * SqlValue) : NormalizationIssue :=
  mkIssue x.1.1 x.1.2
    "Possible 1NF violation - multiple values in single column" x.2.

(** A table [posts(tags)] in which the same delimited text is sampled
    three times. *)
Definition tags_db : Database :=
  mkDatabase [mkMaster "table" "posts" "posts"]
    (answer_for [("PRAGMA table_info(posts)", [text_column 0 "tags"])])
    (answer_for [("PRAGMA index_list(posts)", [])])
    (answer_for [("PRAGMA foreign_key_list(posts)", [])])
    (answer_for [("SELECT tags FROM posts LIMIT 100",
                  replicate 3 (VText "red;green"))]).

(** A database with an index and a view but no table. *)
Definition tableless_db : Database :=
  mkDatabase [mkMaster "view" "v_orders" "v_orders";
              mkMaster "index" "idx_orders_customer_id" "orders"]
    (answer_for []) (answer_for []) (answer_for []) (answer_for []).

(** What the steps of a method body may change between [connect()] and
    [commit()]: they keep the attributes of the optimizer and the open
    connections, and the calls they record are [execute] calls. *)
Record runs_statements (st st' : State) : Prop := mkRunsStatements {
  rs_self : self st' = self st;
  rs_open_conns : open_conns (world st') = open_conns (world st);
  rs_trace : ∃ evs, trace (world st') = trace (world st) ++ evs
                    ∧ Forall (λ ev, is_execute ev = true) evs
}.

Definition executes_only {A} (m : Py A) : Prop :=
  ∀ st, runs_statements st (m st).2.

(** [three_fk_db] behind a connection on which the sixth call, the first
    [CREATE INDEX], is interrupted from the keyboard. *)
Definition interrupted_state : State :=
  mkState (init "orders.db")
    (mkWorld three_fk_db strict_engine
       [None; None; None; None; None;
        Some (mkExc NotAnException "KeyboardInterrupt")] 0 ∅ [] []).

(** [shop_db] behind a connection on which the catalogue cannot be read. *)
Definition unreadable_state : State :=
  mkState (init "shop.db")
    (fresh_world shop_db [None; Some (OperationalError "database is locked")]).

(** *** The statements a fault-free analysis executes *)

(** The world after the statements [sqls] have been executed with success
    on connection [h], none of them changing the database. *)
Definition queried (h : ConnId) (sqls : list string) (w : World) : World :=
  mkWorld (database w) (engine w) (faults w) (next_conn w) (open_conns w)
    (trace w ++ ((λ sql, EvExecute h sql true) <$> sqls)) (log w).

(** On the database [db], in a healthy state, [m] returns [a] after
    executing exactly the statements [sqls]. *)
Definition runs_on {A} (db : Database) (m : Py A) (a : A) (sqls : list string) : Prop :=
  ∀ st h,
    database (world st) = db →
    cursor (self st) = Some h →
    h ∈ open_conns (world st) →
    faults (world st) = [] →
    m st = (Return a, mkState (self st) (queried h sqls (world st))).

Definition table_list_sql : string :=
  "SELECT name FROM sqlite_master WHERE type='table'".

Definition analyze_statements (db : Database) : list string :=
  table_list_sql ::
  (master_table_names db ≫= λ t,
   ["PRAGMA table_info(" +:+ t +:+ ")";
    "PRAGMA index_list(" +:+ t +:+ ")";
    "PRAGMA foreign_key_list(" +:+ t +:+ ")"]).

Definition check_statements (db : Database) : list string :=
  table_list_sql ::
  (master_table_names db ≫= λ t,
   ("PRAGMA table_info(" +:+ t +:+ ")") ::
   (table_info t db ≫= λ col,
    ["SELECT " +:+ col_name col +:+ " FROM " +:+ t +:+ " LIMIT 100"])).

Definition suggest_statements (db : Database) : list string :=
  table_list_sql ::
  (master_table_names db ≫= λ t,
   ["PRAGMA index_list(" +:+ t +:+ ")";
    "PRAGMA table_info(" +:+ t +:+ ")";
    "PRAGMA foreign_key_list(" +:+ t +:+ ")"]).

(** *** The effect of the executor on the database *)

(** The database after the engine has been handed the statements [sqls] one
    after the other, a rejected statement leaving it as it is. *)
Definition apply_all (eng : string → Database → EngineResult)
    (db : Database) (sqls : list string) : Database :=
  foldl (λ db sql, match eng sql db with
                   | Applied db' => db'
                   | Rejected _ => db
                   end) db sqls.

(** [shop_db] with other rows, another referenced table and no primary
    key: the table names, index names and foreign-key columns are the
    same. *)
Definition shop_db_variant : Database :=
  mkDatabase
    [mkMaster "table" "customers" "customers"; mkMaster "table" "orders" "orders"]
    (answer_for [("PRAGMA table_info(customers)", [text_column 0 "name"]);
                 ("PRAGMA table_info(orders)", [int_column 0 "customer_id" 0])])
    (index_list_answer shop_db)
    (answer_for
       [("PRAGMA foreign_key_list(customers)", []);
        ("PRAGMA foreign_key_list(orders)",
         [mkFk 7 0 "clients" "customer_id" VNull "CASCADE" "CASCADE" "NONE"])])
    (answer_for [("SELECT name FROM customers LIMIT 100", []);
                 ("SELECT customer_id FROM orders LIMIT 100", [])]).

(** ** Reasoning about the read path *)

Lemma reads_only_refl st : reads_only st st.
Proof.
  split; try reflexivity.
  - exists 0. by rewrite drop_0.
  - exists []. by rewrite app_nil_r.
Qed.

Lemma reads_only_trans st1 st2 st3 :
  reads_only st1 st2 → reads_only st2 st3 → reads_only st1 st3.
Proof.
  intros [S1 D1 E1 N1 O1 L1 [n1 F1] [ev1 [T1 X1]]]
         [S2 D2 E2 N2 O2 L2 [n2 F2] [ev2 [T2 X2]]].
  split; try congruence.
  - exists (n1 + n2). rewrite F2, F1. by rewrite drop_drop.
  - exists (ev1 ++ ev2). split.
    + rewrite T2, T1. by rewrite app_assoc.
    + by apply Forall_app.
Qed.

Lemma healthy_reads_only st st' : healthy st → reads_only st st' → healthy st'.
Proof.
  intros [[h [Hc Ho]] Hf] R. destruct R as [S _ _ _ O _ [n F] _].
  split.
  - exists h. by rewrite S, O.
  - rewrite F, Hf. by destruct n.
Qed.

Lemma denotes_ret {A} (a : A) : denotes (ret a) (λ _, Return a).
Proof.
  intros st. cbn. split; [apply reads_only_refl|]. split; [|done].
  by intros ? [= <-].
Qed.

Lemma denotes_bind {A B} (m : Py A) (k : A → Py B) d g :
  denotes m d → (∀ a, denotes (k a) (g a)) →
  denotes (bind m k) (λ db, and_then (d db) (λ a, g a db)).
Proof.
  intros Hm Hk st. unfold bind.
  destruct (Hm st) as [R1 [P1 T1]].
  destruct (m st) as [[a|e] st1] eqn:E; cbn in *.
  - destruct (Hk a st1) as [R2 [P2 T2]].
    rewrite (P1 a eq_refl). cbn.
    rewrite <- (ro_database _ _ R1).
    split; [by eapply reads_only_trans|]. split; [done|].
    intros H. apply T2. by eapply healthy_reads_only.
  - split; [done|]. split; [done|].
    intros H. rewrite <- (T1 H). done.
Qed.

Lemma denotes_for_fold {A B} (xs : list A) (body : B → A → Py B) g :
  (∀ acc x, denotes (body acc x) (g acc x)) →
  ∀ acc, denotes (for_fold xs acc body)
                 (λ db, fold_outcome (λ acc x, g acc x db) xs acc).
Proof.
  intros Hb. induction xs as [|x xs IH]; intros acc; cbn [for_fold fold_outcome].
  - apply denotes_ret.
  - apply (denotes_bind _ _ (g acc x) (λ acc' db, fold_outcome (λ acc x, g acc x db) xs acc')).
    + apply Hb.
    + apply IH.
Qed.

Lemma denotes_query {A} sql (answer : Database → Outcome A) :
  denotes (cursor_query sql answer) answer.
Proof.
  intros st. unfold cursor_query, cursor_execute.
  destruct (cursor (self st)) as [h|] eqn:Hc; cbn.
  2:{ split; [apply reads_only_refl|]. split; [done|].
      intros [[h [Hc' _]] _]. congruence. }
  assert (Hstep : ∀ ok,
    reads_only st (mkState (self st)
      (called (EvExecute h sql ok) (database (world st)) (world st)))).
  { intros ok. split; try reflexivity; cbn.
    - exists 1. by destruct (faults (world st)).
    - exists [EvExecute h sql ok]. split; [done|]. by repeat constructor. }
  case_decide as Ho; cbn.
  2:{ split; [apply reads_only_refl|]. split; [done|].
      intros [[h' [Hc' Ho']] _]. congruence. }
  destruct (next_fault (world st)) as [e|] eqn:Hf; cbn.
  { split; [apply Hstep|]. split; [done|].
    intros [_ Hnil]. unfold next_fault in Hf. by rewrite Hnil in Hf. }
  destruct (answer (database (world st))) as [a|e] eqn:Ha; cbn.
  - split; [apply Hstep|]. split; [by intros ? [= <-]|done].
  - split; [apply Hstep|]. split; [done|done].
Qed.

Lemma denotes_ext {A} (m : Py A) d d' :
  denotes m d → (∀ db, d db = d' db) → denotes m d'.
Proof.
  intros H E st. destruct (H st) as [R [P T]].
  split; [done|]. split.
  - intros a Ha. rewrite <- E. by apply P.
  - intros Hh. rewrite <- E. by apply T.
Qed.

Lemma fold_outcome_Return {A B} (f : B → A → Outcome B) (g : B → A → B) xs :
  (∀ acc x, x ∈ xs → f acc x = Return (g acc x)) →
  ∀ acc, fold_outcome f xs acc = Return (foldl g acc xs).
Proof.
  induction xs as [|x xs IH]; intros Hf acc; cbn; [done|].
  rewrite Hf by left. cbn. apply IH.
  intros acc' y Hy. apply Hf. by right.
Qed.

Ltac denote :=
  repeat first
    [ apply denotes_query
    | apply denotes_ret
    | eapply denotes_bind; [|intros ?]
    | eapply denotes_for_fold; intros ? ? ].

Lemma denotes_select_table_names :
  denotes select_table_names (λ db, Return (master_table_names db)).
Proof. apply denotes_query. Qed.

Lemma denotes_returns {A} (m : Py A) d st a st' :
  denotes m d →
  m st = (Return a, st') →
  d (database (world st)) = Return a ∧ reads_only st st'.
Proof.
  intros H E. destruct (H st) as [R [P _]]. rewrite E in R, P. cbn in *.
  split; [|done]. by apply P.
Qed.

Lemma denotes_healthy {A} (m : Py A) d st a :
  denotes m d →
  healthy st →
  d (database (world st)) = Return a →
  ∃ st', m st = (Return a, st') ∧ reads_only st st' ∧ healthy st'.
Proof.
  intros H Hh Hd. destruct (H st) as [R [_ T]]. specialize (T Hh).
  destruct (m st) as [r st'] eqn:E. cbn in *. subst r.
  exists st'. rewrite Hd. split; [done|]. split; [done|].
  by eapply healthy_reads_only.
Qed.

(** *** Outcomes of the pure mirrors *)

Lemma and_then_Return {A B} (r : Outcome A) (k : A → Outcome B) b :
  and_then r k = Return b → ∃ a, r = Return a ∧ k a = Return b.
Proof. destruct r as [a|e]; [|done]. intros H. by exists a. Qed.

Lemma is_Return_rows_of {A} (r : Outcome (list A)) :
  is_Return r = true → r = Return (rows_of r).
Proof. by destruct r. Qed.

Lemma fold_outcome_inv {A B} (f : B → A → Outcome B) (g : B → A → B) xs :
  (∀ acc x b, f acc x = Return b → b = g acc x) →
  ∀ acc r, fold_outcome f xs acc = Return r → r = foldl g acc xs.
Proof.
  intros Hf. induction xs as [|x xs IH]; intros acc r; cbn.
  - by intros [= <-].
  - intros (b & Hb & Hr)%and_then_Return.
    rewrite <- (Hf _ _ _ Hb). by apply IH.
Qed.

Lemma foldl_app_bind {A B} (g : A → list B) xs : ∀ acc,
  foldl (λ acc x, acc ++ g x) acc xs = acc ++ (xs ≫= g).
Proof.
  induction xs as [|x xs IH]; intros acc; cbn.
  - by rewrite app_nil_r.
  - rewrite IH. by rewrite <- app_assoc.
Qed.

Lemma fold_outcome_bind_inv {A B} (f : list B → A → Outcome (list B))
    (g : A → list B) xs :
  (∀ acc x b, f acc x = Return b → b = acc ++ g x) →
  ∀ acc r, fold_outcome f xs acc = Return r → r = acc ++ (xs ≫= g).
Proof.
  intros Hf acc r Hr.
  rewrite (fold_outcome_inv f (λ acc x, acc ++ g x) xs Hf acc r Hr).
  apply foldl_app_bind.
Qed.

Lemma fold_outcome_bind {A B} (f : list B → A → Outcome (list B)) (g : A → list B) xs :
  (∀ acc x, x ∈ xs → f acc x = Return (acc ++ g x)) →
  ∀ acc, fold_outcome f xs acc = Return (acc ++ (xs ≫= g)).
Proof.
  induction xs as [|x xs IH]; intros Hf acc; cbn.
  - by rewrite app_nil_r.
  - rewrite Hf by left. cbn. rewrite IH.
    + by rewrite <- app_assoc.
    + intros acc' y Hy. apply Hf. by right.
Qed.

Lemma table_info_answered t db rows :
  table_info_answer db (table_info_sql t) = Return rows → table_info t db = rows.
Proof. intros H. unfold table_info. by rewrite H. Qed.

Lemma index_list_answered t db rows :
  index_list_answer db (index_list_sql t) = Return rows → index_list t db = rows.
Proof. intros H. unfold index_list. by rewrite H. Qed.

Lemma foreign_key_list_answered t db rows :
  foreign_key_list_answer db (foreign_key_list_sql t) = Return rows →
  foreign_key_list t db = rows.
Proof. intros H. unfold foreign_key_list. by rewrite H. Qed.

Lemma samples_answered_rows t c db rows :
  select_answer db (sample_sql c t) = Return rows → samples_of t c db = rows.
Proof. intros H. unfold samples_of. by rewrite H. Qed.

(** *** [analyze_table_structure] *)

Lemma denotes_analyze_table_structure :
  denotes analyze_table_structure analysis_outcome.
Proof.
  eapply denotes_ext.
  - unfold analyze_table_structure, select_table_names, pragma_table_info,
      pragma_index_list, pragma_foreign_key_list. denote.
  - done.
Qed.

Lemma analysis_outcome_Return db a :
  analysis_outcome db = Return a → a = analysis_on db.
Proof.
  unfold analysis_outcome, analysis_on. apply fold_outcome_inv.
  intros acc t b.
  intros (c & Hc & H)%and_then_Return.
  apply and_then_Return in H as (i & Hi & H).
  apply and_then_Return in H as (k & Hk & H).
  injection H as <-.
  by rewrite (table_info_answered _ _ _ Hc), (index_list_answered _ _ _ Hi),
    (foreign_key_list_answered _ _ _ Hk).
Qed.

Lemma analysis_outcome_answered db :
  pragmas_answered db → analysis_outcome db = Return (analysis_on db).
Proof.
  intros Hans. unfold analysis_outcome, analysis_on.
  apply fold_outcome_Return. intros acc t Ht.
  unfold pragmas_answered in Hans. rewrite Forall_forall in Hans.
  destruct (Hans t Ht) as (H1 & H2 & H3).
  rewrite (is_Return_rows_of _ H1), (is_Return_rows_of _ H2),
    (is_Return_rows_of _ H3). done.
Qed.

Lemma analyze_table_structure_returns st a st' :
  analyze_table_structure st = (Return a, st') →
  a = analysis_on (database (world st)) ∧ reads_only st st'.
Proof.
  intros E.
  destruct (denotes_returns _ _ _ _ _ denotes_analyze_table_structure E) as [H R].
  split; [by apply analysis_outcome_Return|done].
Qed.

Lemma analyze_table_structure_healthy st :
  healthy st → pragmas_answered (database (world st)) →
  ∃ st', analyze_table_structure st = (Return (analysis_on (database (world st))), st')
         ∧ reads_only st st' ∧ healthy st'.
Proof.
  intros Hh Hans.
  apply (denotes_healthy _ _ _ _ denotes_analyze_table_structure Hh).
  by apply analysis_outcome_answered.
Qed.

(** *** [check_normalization] *)

Lemma check_sample_app t c acc v :
  check_sample t c acc v = acc ++ issues_for t c v.
Proof.
  unfold issues_for, check_sample.
  destruct (truthy v && isinstance_str v); [|by rewrite app_nil_r].
  destruct v; try by rewrite app_nil_r.
  destruct (existsb _ _); [done|by rewrite app_nil_r].
Qed.

Lemma foldl_check_sample t c vs acc :
  foldl (check_sample t c) acc vs = acc ++ (vs ≫= issues_for t c).
Proof.
  revert acc. induction vs as [|v vs IH]; intros acc; cbn.
  - by rewrite app_nil_r.
  - rewrite IH, check_sample_app. by rewrite <- app_assoc.
Qed.

Lemma denotes_check_normalization :
  denotes check_normalization issues_outcome.
Proof.
  eapply denotes_ext.
  - unfold check_normalization, select_table_names, pragma_table_info,
      select_samples. denote.
  - done.
Qed.

Lemma issues_outcome_Return db issues :
  issues_outcome db = Return issues → issues = issues_on db.
Proof.
  unfold issues_outcome, issues_on. intros H.
  apply (fold_outcome_bind_inv _
           (λ t, table_info t db ≫= λ col,
                 samples_of t (col_name col) db ≫= issues_for t (col_name col)))
    in H; [done|].
  intros acc t b (cols & Hc & Hb)%and_then_Return.
  rewrite (table_info_answered _ _ _ Hc).
  revert Hb. apply fold_outcome_bind_inv.
  intros acc' col b' (vs & Hv & Hb')%and_then_Return.
  injection Hb' as <-.
  by rewrite (samples_answered_rows _ _ _ _ Hv), foldl_check_sample.
Qed.

Lemma issues_outcome_answered db :
  samples_answered db → issues_outcome db = Return (issues_on db).
Proof.
  intros Hans. unfold issues_outcome, issues_on.
  unfold samples_answered in Hans. rewrite Forall_forall in Hans.
  rewrite (fold_outcome_bind _
    (λ t, table_info t db ≫= λ col,
          samples_of t (col_name col) db ≫= issues_for t (col_name col))); [done|].
  intros acc t Ht. destruct (Hans t Ht) as [Hc Hcols].
  rewrite Forall_forall in Hcols.
  rewrite (is_Return_rows_of _ Hc). cbn [and_then].
  fold (table_info t db).
  apply fold_outcome_bind. intros acc' col Hcol.
  rewrite (is_Return_rows_of _ (Hcols col Hcol)). cbn [and_then].
  fold (samples_of t (col_name col) db).
  by rewrite foldl_check_sample.
Qed.

Lemma check_normalization_returns st issues st' :
  check_normalization st = (Return issues, st') →
  issues = issues_on (database (world st)) ∧ reads_only st st'.
Proof.
  intros E.
  destruct (denotes_returns _ _ _ _ _ denotes_check_normalization E) as [H R].
  split; [by apply issues_outcome_Return|done].
Qed.

Lemma check_normalization_healthy st :
  healthy st → samples_answered (database (world st)) →
  ∃ st', check_normalization st = (Return (issues_on (database (world st))), st')
         ∧ reads_only st st' ∧ healthy st'.
Proof.
  intros Hh Hans.
  apply (denotes_healthy _ _ _ _ denotes_check_normalization Hh).
  by apply issues_outcome_answered.
Qed.

(** *** [suggest_indexes] *)

Lemma suggest_for_fk_app t existing acc fk :
  suggest_for_fk t existing acc fk = acc ++ suggest_for_fk t existing [] fk.
Proof.
  unfold suggest_for_fk. case_decide; [done|by rewrite app_nil_r].
Qed.

Lemma foldl_suggest_for_fk t existing fks acc :
  foldl (suggest_for_fk t existing) acc fks
  = acc ++ (fks ≫= suggest_for_fk t existing []).
Proof.
  revert acc. induction fks as [|fk fks IH]; intros acc; cbn.
  - by rewrite app_nil_r.
  - rewrite IH, suggest_for_fk_app. by rewrite <- app_assoc.
Qed.

Lemma denotes_suggest_indexes :
  denotes suggest_indexes suggestions_outcome.
Proof.
  eapply denotes_ext.
  - unfold suggest_indexes, select_table_names, pragma_table_info,
      pragma_index_list, pragma_foreign_key_list. denote.
  - done.
Qed.

Lemma suggestions_outcome_Return db sugs :
  suggestions_outcome db = Return sugs → sugs = suggestions_on db.
Proof.
  unfold suggestions_outcome, suggestions_on. intros H.
  apply (fold_outcome_bind_inv _
           (λ t, foreign_key_list t db ≫= suggestions_for t db)) in H; [done|].
  intros acc t b (i & Hi & Hb)%and_then_Return.
  apply and_then_Return in Hb as (c & Hc & Hb).
  apply and_then_Return in Hb as (k & Hk & Hb).
  injection Hb as <-.
  rewrite foldl_suggest_for_fk. unfold suggestions_for, existing_indexes_of.
  by rewrite (index_list_answered _ _ _ Hi), (foreign_key_list_answered _ _ _ Hk).
Qed.

Lemma suggestions_outcome_answered db :
  pragmas_answered db → suggestions_outcome db = Return (suggestions_on db).
Proof.
  intros Hans. unfold suggestions_outcome, suggestions_on.
  unfold pragmas_answered in Hans. rewrite Forall_forall in Hans.
  rewrite (fold_outcome_bind _
    (λ t, foreign_key_list t db ≫= suggestions_for t db)); [done|].
  intros acc t Ht. destruct (Hans t Ht) as (H1 & H2 & H3).
  rewrite (is_Return_rows_of _ H1), (is_Return_rows_of _ H2),
    (is_Return_rows_of _ H3). cbn [and_then].
  by rewrite foldl_suggest_for_fk.
Qed.

Lemma suggest_indexes_returns st sugs st' :
  suggest_indexes st = (Return sugs, st') →
  sugs = suggestions_on (database (world st)) ∧ reads_only st st'.
Proof.
  intros E.
  destruct (denotes_returns _ _ _ _ _ denotes_suggest_indexes E) as [H R].
  split; [by apply suggestions_outcome_Return|done].
Qed.

Lemma suggest_indexes_healthy st :
  healthy st → pragmas_answered (database (world st)) →
  ∃ st', suggest_indexes st = (Return (suggestions_on (database (world st))), st')
         ∧ reads_only st st' ∧ healthy st'.
Proof.
  intros Hh Hans.
  apply (denotes_healthy _ _ _ _ denotes_suggest_indexes Hh).
  by apply suggestions_outcome_answered.
Qed.

(** ** The index advisor *)

Lemma append_assoc (a b c : string) : (a +:+ b) +:+ c = a +:+ (b +:+ c).
Proof. induction a as [|x a IH]; [done|]. change (String x ((a +:+ b) +:+ c) = String x (a +:+ (b +:+ c))). by f_equal. Qed.

Lemma suggestions_for_covered db t fk :
  suggestions_for t db fk
  = if decide (covered db (t, fk)) then [] else [suggestion_of (t, fk)].
Proof.
  unfold suggestions_for, suggest_for_fk, covered, existing_indexes_of,
    suggestion_of, create_index_sql, index_name. cbn.
  destruct (decide (_ ∈ il_name <$> _)) as [Hin|Hin].
  - rewrite decide_False; [done|]. intros Hn. apply Hn.
    by apply elem_of_list_to_set.
  - rewrite decide_True.
    + cbn. do 2 f_equal. by rewrite !append_assoc.
    + intros Hs. apply Hin. by apply elem_of_list_to_set in Hs.
Qed.

Lemma bind_filter_fmap {A B} (P : A → Prop) `{!∀ x, Decision (P x)}
    (f : A → B) (l : list A) :
  (l ≫= λ x, if decide (P x) then [] else [f x]) = f <$> filter (λ x, ¬ P x) l.
Proof.
  induction l as [|x l IH]; [done|].
  rewrite bind_cons, filter_cons, IH.
  destruct (decide (P x)).
  - by rewrite decide_False by tauto.
  - by rewrite decide_True by done.
Qed.

Lemma suggestions_on_fk_rows db :
  suggestions_on db = fk_rows db ≫= λ d, suggestions_for d.1 db d.2.
Proof.
  unfold suggestions_on, fk_rows.
  induction (master_table_names db) as [|t ts IH]; [done|].
  rewrite !bind_cons, bind_app, IH. f_equal.
  by rewrite list_fmap_bind.
Qed.

Lemma suggestions_on_filter db :
  suggestions_on db = suggestion_of <$> filter (λ d, ¬ covered db d) (fk_rows db).
Proof.
  rewrite suggestions_on_fk_rows, <- bind_filter_fmap.
  apply list_bind_ext; [|done]. intros [t fk]. apply suggestions_for_covered.
Qed.

Lemma filter_all {A} (P : A → Prop) `{!∀ x, Decision (P x)} (l : list A) :
  Forall P l → filter P l = l.
Proof.
  induction 1 as [|x l Hx _ IH]; [done|].
  by rewrite filter_cons, decide_True, IH.
Qed.

Lemma filter_none {A} (P : A → Prop) `{!∀ x, Decision (P x)} (l : list A) :
  Forall (λ x, ¬ P x) l → filter P l = [].
Proof.
  induction 1 as [|x l Hx _ IH]; [done|].
  by rewrite filter_cons, decide_False, IH.
Qed.

(** C1.  Whenever [suggest_indexes] returns, it returns one suggestion,
    in catalogue order, for every foreign-key descriptor whose table has no
    index named [idx_<table>_<column>], and nothing else; in a healthy
    state it does return when SQLite answers the pragmas written for the
    enumerated tables.  So in a schema where no foreign key is covered
    there is exactly one suggestion per foreign key, with [sql] field
    [CREATE INDEX idx_<table>_<column> ON <table>(<column>)], and in a
    schema where every foreign key is covered the list is empty. *)
Theorem suggest_indexes_uncovered_foreign_keys (st : State) :
  let db := database (world st) in
  (healthy st → pragmas_answered db →
   ∃ st', suggest_indexes st
          = (Return (suggestion_of <$> filter (λ d, ¬ covered db d) (fk_rows db)), st'))
  ∧ (∀ sugs st', suggest_indexes st = (Return sugs, st') →
       sugs = suggestion_of <$> filter (λ d, ¬ covered db d) (fk_rows db)
       ∧ (Forall (λ d, ¬ covered db d) (fk_rows db) →
          sugs = suggestion_of <$> fk_rows db
          ∧ Forall2 (λ s d, s_sql s = create_index_sql d.1 (fk_from d.2))
                    sugs (fk_rows db))
       ∧ (Forall (covered db) (fk_rows db) → sugs = [])).
Proof.
  intros db. split.
  - intros Hh Hans.
    destruct (suggest_indexes_healthy st Hh Hans) as [st' [E _]].
    exists st'. fold db in E. by rewrite <- suggestions_on_filter.
  - intros sugs st' E.
    destruct (suggest_indexes_returns _ _ _ E) as [-> _].
    fold db. rewrite suggestions_on_filter.
    split; [done|]. split.
    + intros Hall. rewrite filter_all by done. split; [done|].
      apply Forall2_fmap_l, Forall_Forall2_diag, Forall_true. done.
    + intros Hall. rewrite filter_none; [done|].
      eapply Forall_impl; [exact Hall|]. cbn. tauto.
Qed.

Lemma connected_healthy db : healthy (connected db []).
Proof.
  split; [|done]. exists 0. split; [done|]. cbn. set_solver.
Qed.

Lemma shop_db_answered : pragmas_answered shop_db ∧ samples_answered shop_db.
Proof. split; compute_done. Qed.

Lemma indexed_db_answered : pragmas_answered indexed_db ∧ samples_answered indexed_db.
Proof. split; compute_done. Qed.

Lemma suggest_indexes_uncovered_foreign_keys_witness :
  (∃ st', suggest_indexes (connected shop_db [])
          = (Return [mkSuggestion "orders" "customer_id"
                       "Create index on foreign key column: customer_id"
                       "CREATE INDEX idx_orders_customer_id ON orders(customer_id)"],
             st'))
  ∧ (∃ st', suggest_indexes (connected indexed_db []) = (Return [], st')).
Proof.
  split.
  - destruct (suggest_indexes_uncovered_foreign_keys (connected shop_db []))
      as [H1 H2].
    destruct (H1 (connected_healthy _) (proj1 shop_db_answered)) as [st' E].
    destruct (H2 _ _ E) as (_ & Hall & _).
    destruct Hall as [Hs _]; [cbn; compute_done|].
    exists st'. exact E.
  - destruct (suggest_indexes_uncovered_foreign_keys (connected indexed_db []))
      as [H1 H2].
    destruct (H1 (connected_healthy _) (proj1 indexed_db_answered)) as [st' E].
    destruct (H2 _ _ E) as (_ & _ & Hnone).
    rewrite Hnone in E by (cbn; compute_done).
    exists st'. exact E.
Defined.

Lemma length_suggestions_for t db fk : (List.length (suggestions_for t db fk) ≤ 1)%nat.
Proof. rewrite suggestions_for_covered. case_decide; cbn; lia. Qed.

Lemma length_bind_le {A B} (f : A → list B) (l : list A) :
  (∀ x, (List.length (f x) ≤ 1)%nat) → (List.length (l ≫= f) ≤ List.length l)%nat.
Proof.
  intros Hf. induction l as [|x l IH]; [done|].
  rewrite bind_cons, length_app. cbn. specialize (Hf x). lia.
Qed.

Lemma suggestion_of_sql d :
  s_sql (suggestion_of d)
  = "CREATE INDEX " +:+ index_name (s_table (suggestion_of d)) (s_column (suggestion_of d))
      +:+ " ON " +:+ s_table (suggestion_of d) +:+ "(" +:+ s_column (suggestion_of d) +:+ ")".
Proof.
  unfold suggestion_of, create_index_sql, index_name.
  cbn [s_sql s_table s_column fst snd].
  by rewrite !append_assoc.
Qed.

(** C3, as the code has it.  Whenever [suggest_indexes] returns, every
    row of [PRAGMA foreign_key_list] (one per referencing column of a
    foreign key) has contributed at most one suggestion, so there are no
    more suggestions than such rows; the statement of every suggestion
    creates the index named [idx_<table>_<column>] for the table and column
    of the suggestion, the database is left as it was, and any run against
    the same database that returns, returns the same suggestions; in a
    healthy state the next run does return them. *)
Theorem suggest_indexes_one_per_foreign_key_row
    (st : State) (sugs : list IndexSuggestion) (st' : State) :
  suggest_indexes st = (Return sugs, st') →
  let db := database (world st) in
  sugs = (fk_rows db ≫= λ d, suggestions_for d.1 db d.2)
  ∧ (∀ d, (List.length (suggestions_for d.1 db d.2) ≤ 1)%nat)
  ∧ (List.length sugs ≤ List.length (fk_rows db))%nat
  ∧ Forall (λ s, s_sql s = "CREATE INDEX " +:+ index_name (s_table s) (s_column s)
                             +:+ " ON " +:+ s_table s +:+ "(" +:+ s_column s +:+ ")")
           sugs
  ∧ database (world st') = db
  ∧ (∀ st2 sugs2 st2', database (world st2) = db →
       suggest_indexes st2 = (Return sugs2, st2') → sugs2 = sugs)
  ∧ (healthy st → ∃ st'', suggest_indexes st' = (Return sugs, st'')).
Proof.
  intros E db.
  destruct (denotes_returns _ _ _ _ _ denotes_suggest_indexes E) as [Hd R].
  pose proof (suggestions_outcome_Return _ _ Hd) as ->.
  fold db in Hd |- *. split; [apply suggestions_on_fk_rows|].
  split; [intros d; apply length_suggestions_for|].
  split.
  { rewrite suggestions_on_fk_rows. apply length_bind_le.
    intros d. apply length_suggestions_for. }
  split.
  { rewrite suggestions_on_filter. apply Forall_fmap, Forall_true.
    intros d. apply suggestion_of_sql. }
  split; [apply (ro_database _ _ R)|].
  split.
  { intros st2 sugs2 st2' Hdb E2.
    destruct (suggest_indexes_returns _ _ _ E2) as [-> _].
    by rewrite Hdb. }
  intros Hh.
  destruct (denotes_healthy _ _ st' (suggestions_on db) denotes_suggest_indexes
              (healthy_reads_only _ _ Hh R)) as [st'' [E' _]].
  { by rewrite (ro_database _ _ R). }
  by exists st''.
Qed.

Lemma suggest_indexes_one_per_foreign_key_row_witness :
  ∃ sugs st', suggest_indexes (connected shop_db []) = (Return sugs, st')
              ∧ (List.length sugs ≤ 1)%nat
              ∧ ∃ st'', suggest_indexes st' = (Return sugs, st'').
Proof.
  destruct (suggest_indexes_healthy (connected shop_db []) (connected_healthy _)
              (proj1 shop_db_answered)) as [st' [E _]].
  eexists _, st'. split; [exact E|].
  destruct (suggest_indexes_one_per_foreign_key_row _ _ _ E)
    as (_ & _ & Hlen & _ & _ & _ & Hagain).
  split; [exact Hlen|]. exact (Hagain (connected_healthy _)).
Defined.

(** C3, as stated, fails: the composite foreign key of [order_items] is one
    relationship (both rows of [PRAGMA foreign_key_list] carry the id 0),
    no index covers it, and [suggest_indexes] returns two suggestions for
    it, one per column: more suggestions than relationships. *)
Lemma composite_key_two_suggestions :
  (fk_id <$> foreign_key_list "order_items" composite_db) = [0%Z; 0%Z]
  ∧ size (relationships composite_db) = 1%nat
  ∧ ∃ sugs st',
      suggest_indexes (connected composite_db []) = (Return sugs, st')
      ∧ sugs = [mkSuggestion "order_items" "order_id"
                  "Create index on foreign key column: order_id"
                  "CREATE INDEX idx_order_items_order_id ON order_items(order_id)";
                mkSuggestion "order_items" "product_id"
                  "Create index on foreign key column: product_id"
                  "CREATE INDEX idx_order_items_product_id ON order_items(product_id)"]
      ∧ ¬ (List.length sugs ≤ size (relationships composite_db))%nat.
Proof.
  assert (Hsize : size (relationships composite_db) = 1%nat) by compute_done.
  split; [reflexivity|]. split; [exact Hsize|].
  eexists _, _. split; [vm_compute; reflexivity|].
  split; [reflexivity|]. rewrite Hsize. cbn. lia.
Qed.

(** ** The normalization checker *)

Lemma str_in_char (a : ascii) (s : string) :
  str_in (String a "") s = true ↔ a ∈ String.list_ascii_of_string s.
Proof.
  induction s as [|b s IH]; cbn.
  - split; [done|]. by intros ?%elem_of_nil.
  - rewrite elem_of_cons, <- IH, orb_true_iff.
    destruct (Ascii.eqb_spec a b) as [->|Hne].
    + destruct s; cbn; tauto.
    + split; intros [H|H]; try done; by right.
Qed.

Lemma existsb_delimiters (s : string) :
  existsb (λ d, str_in d s) delimiters = true ↔ has_delimiter s.
Proof.
  unfold delimiters, has_delimiter, delimiter_chars. cbn [existsb].
  rewrite !orb_true_iff, !str_in_char. split.
  - intros [H|[H|[H|[H|H]]]]; try done; eexists; (split; [|exact H]);
      set_solver.
  - intros [ch [Hch Hin]].
    rewrite !elem_of_cons in Hch.
    destruct Hch as [->|[->|[->|[->|Hch]]]]; [tauto..|].
    by apply elem_of_nil in Hch.
Qed.

Lemma has_delimiter_nonempty : ¬ has_delimiter "".
Proof. intros [ch [_ H]]. by apply elem_of_nil in H. Qed.

Lemma issues_for_text t c s :
  issues_for t c (VText s)
  = if existsb (λ d, str_in d s) delimiters
    then [mkIssue t c "Possible 1NF violation - multiple values in single column"
            (VText s)]
    else [].
Proof.
  unfold issues_for, check_sample. cbn.
  destruct s as [|a s]; [done|]. reflexivity.
Qed.

Lemma issues_for_delimited t c s :
  has_delimiter s →
  issues_for t c (VText s)
  = [mkIssue t c "Possible 1NF violation - multiple values in single column"
       (VText s)].
Proof.
  intros H%existsb_delimiters. by rewrite issues_for_text, H.
Qed.

Lemma issues_for_undelimited t c s :
  ¬ has_delimiter s → issues_for t c (VText s) = [].
Proof.
  intros H. rewrite issues_for_text.
  destruct (existsb _ _) eqn:E; [|done].
  by apply existsb_delimiters in E.
Qed.

Lemma issues_for_not_text t c v :
  isinstance_str v = false → issues_for t c v = [].
Proof.
  intros H. unfold issues_for, check_sample. rewrite H.
  by rewrite andb_false_r.
Qed.

(** Every issue a value contributes carries that value, which is a
    non-empty text with a delimiter. *)
Lemma issues_for_sample t c v i :
  i ∈ issues_for t c v →
  ∃ s, v = VText s ∧ ni_sample i = VText s ∧ s ≠ "" ∧ has_delimiter s.
Proof.
  destruct v as [|z|b|s|b]; try (rewrite issues_for_not_text by done;
                                 by intros ?%elem_of_nil).
  rewrite issues_for_text.
  destruct (existsb _ _) eqn:E; [|by intros ?%elem_of_nil].
  intros ->%list_elem_of_singleton. apply existsb_delimiters in E.
  exists s. repeat split; try done.
  intros ->. by apply has_delimiter_nonempty.
Qed.

(** C2.  Whenever [check_normalization] returns, the list of issues is the
    concatenation, over the tables, their columns and the values sampled
    from each column (the values SQLite answers to the [SELECT] written for
    the column, in the order it answers them), of what each value
    contributes; in a healthy state it does return when SQLite answers the
    statements written for the tables and columns; a text value with none
    of [,], [;], [|], [/] contributes
    nothing, and a text value with at least one of them contributes exactly
    one issue, whose sample is that value. *)
Theorem check_normalization_text_samples (st : State) :
  let db := database (world st) in
  (healthy st → samples_answered db →
   ∃ st', check_normalization st = (Return (issues_on db), st'))
  ∧ (∀ issues st', check_normalization st = (Return issues, st') →
       issues = (master_table_names db ≫= λ t,
                 table_info t db ≫= λ col,
                 samples_of t (col_name col) db ≫= issues_for t (col_name col)))
  ∧ (∀ t c s, ¬ has_delimiter s → issues_for t c (VText s) = [])
  ∧ (∀ t c s, has_delimiter s →
       ∃ i, issues_for t c (VText s) = [i] ∧ ni_sample i = VText s
            ∧ ni_table i = t ∧ ni_column i = c).
Proof.
  intros db. split; [|split; [|split]].
  - intros Hh Hans.
    destruct (check_normalization_healthy st Hh Hans) as [st' [E _]].
    by exists st'.
  - intros issues st' E.
    by destruct (check_normalization_returns _ _ _ E) as [-> _].
  - intros t c s. apply issues_for_undelimited.
  - intros t c s H. eexists. split; [by apply issues_for_delimited|done].
Qed.

Lemma check_normalization_text_samples_witness :
  (∃ st', check_normalization (connected shop_db [])
          = (Return [mkIssue "orders" "notes"
                      "Possible 1NF violation - multiple values in single column"
                      (VText "a,b,c")], st'))
  ∧ issues_for "orders" "notes" (VText "plain") = []
  ∧ (∃ i, issues_for "orders" "notes" (VText "a,b,c") = [i]
          ∧ ni_sample i = VText "a,b,c"
          ∧ ni_table i = "orders" ∧ ni_column i = "notes").
Proof.
  destruct (check_normalization_text_samples (connected shop_db []))
    as (Hret & _ & Hnone & Hone).
  split; [|split].
  - destruct (Hret (connected_healthy _) (proj2 shop_db_answered)) as [st' E].
    exists st'. exact E.
  - apply Hnone. intros Hd. apply existsb_delimiters in Hd. discriminate Hd.
  - apply Hone. apply existsb_delimiters. reflexivity.
Defined.

(** C10.  Whenever [check_normalization] returns, the sample of every
    issue is a text value that is true in a boolean context (so not empty)
    and contains one of [,], [;], [|], [/]; [NULL], values that are not
    text, and the empty text contribute no issue. *)
Theorem check_normalization_issue_samples
    (st : State) (issues : list NormalizationIssue) (st' : State) :
  check_normalization st = (Return issues, st') →
  Forall (λ i, ∃ s, ni_sample i = VText s
                    ∧ truthy (ni_sample i) = true
                    ∧ s ≠ ""
                    ∧ has_delimiter s) issues
  ∧ (∀ t c, issues_for t c VNull = [])
  ∧ (∀ t c v, isinstance_str v = false → issues_for t c v = [])
  ∧ (∀ t c, issues_for t c (VText "") = []).
Proof.
  intros E.
  destruct (check_normalization_returns _ _ _ E) as [-> _].
  split; [|split; [|split]].
  - apply Forall_forall. intros i Hi. unfold issues_on in Hi.
    apply list_elem_of_bind in Hi as [t [Hi _]].
    apply list_elem_of_bind in Hi as [col [Hi _]].
    apply list_elem_of_bind in Hi as [v [Hi _]].
    apply issues_for_sample in Hi as (s & _ & Hs & Hne & Hd).
    exists s. split; [done|]. split; [|done].
    rewrite Hs. cbn. by destruct s.
  - intros t c. by apply issues_for_not_text.
  - intros t c v. apply issues_for_not_text.
  - intros t c. apply issues_for_undelimited, has_delimiter_nonempty.
Qed.

Lemma check_normalization_issue_samples_witness :
  ∃ issues st',
    check_normalization (connected shop_db []) = (Return issues, st')
    ∧ Forall (λ i, ∃ s, ni_sample i = VText s
                        ∧ truthy (ni_sample i) = true
                        ∧ s ≠ ""
                        ∧ has_delimiter s) issues.
Proof.
  destruct (check_normalization_healthy (connected shop_db []) (connected_healthy _)
              (proj2 shop_db_answered)) as [st' [E _]].
  eexists _, st'. split; [exact E|].
  exact (proj1 (check_normalization_issue_samples _ _ _ E)).
Defined.

(** ** Which tables are enumerated *)

Lemma elem_of_master_table_names db t :
  t ∈ master_table_names db
  ↔ ∃ r, r ∈ sqlite_master db ∧ m_type r = "table" ∧ m_name r = t.
Proof.
  unfold master_table_names. rewrite list_elem_of_fmap. split.
  - intros [r [-> Hr]]. apply list_elem_of_filter in Hr as [Hty Hr]. by exists r.
  - intros [r (Hr & Hty & <-)]. exists r. split; [done|].
    by apply list_elem_of_filter.
Qed.

Lemma dom_foldl_insert {V} (f : string → V) (l : list string) (m : gmap string V) :
  dom (foldl (λ acc t, <[t := f t]> acc) m l) = list_to_set l ∪ dom m.
Proof.
  revert m. induction l as [|t l IH]; intros m; cbn.
  - set_solver.
  - rewrite IH, dom_insert_L. set_solver.
Qed.

Lemma dom_analysis_on db :
  dom (analysis_on db) = list_to_set (master_table_names db).
Proof.
  unfold analysis_on.
  rewrite (dom_foldl_insert
             (λ t, mkAnalysis (table_info t db) (index_list t db)
                     (foreign_key_list t db))).
  set_solver.
Qed.

Lemma issues_for_table t c v i :
  i ∈ issues_for t c v → ni_table i = t ∧ ni_column i = c.
Proof.
  destruct v as [|z|b|s|b]; try (rewrite issues_for_not_text by done;
                                 by intros ?%elem_of_nil).
  rewrite issues_for_text.
  destruct (existsb _ _); [|by intros ?%elem_of_nil].
  by intros ->%list_elem_of_singleton.
Qed.

Lemma suggestions_for_table t db fk s :
  s ∈ suggestions_for t db fk → s_table s = t.
Proof.
  rewrite suggestions_for_covered. case_decide; [by intros ?%elem_of_nil|].
  by intros ->%list_elem_of_singleton.
Qed.

Lemma autoincrement_db_answered :
  pragmas_answered autoincrement_db ∧ samples_answered autoincrement_db.
Proof. split; compute_done. Qed.

(** C4, as the code has it.  The tables the three analyses work on are the
    rows of [sqlite_master] whose type is ['table'], whatever their name:
    whenever the analyses return, the keys of the dictionary of
    [analyze_table_structure] are the names of these rows, every issue and
    every suggestion is for the table of such a row, and what the columns
    and foreign keys of any such row contribute is in the result.  In a
    healthy state the three analyses return when SQLite answers the
    statements written for these tables and their columns. *)
Theorem tables_enumerated_by_type (st : State) :
  let db := database (world st) in
  let listed t := ∃ r, r ∈ sqlite_master db ∧ m_type r = "table" ∧ m_name r = t in
  (∀ a st', analyze_table_structure st = (Return a, st') →
       ∀ t, t ∈ dom a ↔ listed t)
  ∧ (∀ issues st', check_normalization st = (Return issues, st') →
       (∀ i, i ∈ issues → listed (ni_table i))
       ∧ (∀ t col v i,
            listed t → col ∈ table_info t db →
            v ∈ samples_of t (col_name col) db →
            i ∈ issues_for t (col_name col) v → i ∈ issues))
  ∧ (∀ sugs st', suggest_indexes st = (Return sugs, st') →
       (∀ s, s ∈ sugs → listed (s_table s))
       ∧ (∀ t fk s,
            listed t → fk ∈ foreign_key_list t db →
            s ∈ suggestions_for t db fk → s ∈ sugs))
  ∧ (healthy st → pragmas_answered db → samples_answered db →
     (∃ a st', analyze_table_structure st = (Return a, st'))
     ∧ (∃ issues st', check_normalization st = (Return issues, st'))
     ∧ (∃ sugs st', suggest_indexes st = (Return sugs, st'))).
Proof.
  intros db listed. split; [|split; [|split]].
  - intros a st' E t.
    destruct (analyze_table_structure_returns _ _ _ E) as [-> _].
    rewrite dom_analysis_on, elem_of_list_to_set.
    apply elem_of_master_table_names.
  - intros issues st' E.
    destruct (check_normalization_returns _ _ _ E) as [-> _].
    fold db. unfold issues_on. split.
    + intros i Hi.
      apply list_elem_of_bind in Hi as (t & Hi & Ht).
      apply list_elem_of_bind in Hi as (col & Hi & _).
      apply list_elem_of_bind in Hi as (v & Hi & _).
      apply issues_for_table in Hi as [-> _].
      by apply elem_of_master_table_names.
    + intros t col v i Ht Hcol Hv Hi.
      apply list_elem_of_bind. exists t.
      split; [|by apply elem_of_master_table_names].
      apply list_elem_of_bind. exists col. split; [|done].
      apply list_elem_of_bind. by exists v.
  - intros sugs st' E.
    destruct (suggest_indexes_returns _ _ _ E) as [-> _].
    fold db. unfold suggestions_on. split.
    + intros s Hs.
      apply list_elem_of_bind in Hs as (t & Hs & Ht).
      apply list_elem_of_bind in Hs as (fk & Hs & _).
      apply suggestions_for_table in Hs as ->.
      by apply elem_of_master_table_names.
    + intros t fk s Ht Hfk Hs.
      apply list_elem_of_bind. exists t.
      split; [|by apply elem_of_master_table_names].
      apply list_elem_of_bind. by exists fk.
  - intros Hh Hp Hs. split; [|split].
    + destruct (analyze_table_structure_healthy st Hh Hp) as [st' [E _]].
      by eexists _, st'.
    + destruct (check_normalization_healthy st Hh Hs) as [st' [E _]].
      by eexists _, st'.
    + destruct (suggest_indexes_healthy st Hh Hp) as [st' [E _]].
      by eexists _, st'.
Qed.

Lemma tables_enumerated_by_type_witness :
  ∃ a st', analyze_table_structure (connected autoincrement_db []) = (Return a, st')
           ∧ "sqlite_sequence" ∈ dom a.
Proof.
  destruct (tables_enumerated_by_type (connected autoincrement_db []))
    as (Hdom & _ & _ & Hret).
  destruct (Hret (connected_healthy _) (proj1 autoincrement_db_answered)
              (proj2 autoincrement_db_answered)) as [[a [st' E]] _].
  exists a, st'. split; [exact E|].
  apply (Hdom _ _ E).
  exists (mkMaster "table" "sqlite_sequence" "sqlite_sequence").
  split; [|done]. cbn. set_solver.
Defined.

(** C4, as stated, fails: on a database with an [AUTOINCREMENT] table the
    three analyses enumerate the internal table [sqlite_sequence]. *)
Lemma internal_table_enumerated :
  is_internal_name "sqlite_sequence" = true
  ∧ (∃ a st', analyze_table_structure (connected autoincrement_db []) = (Return a, st')
              ∧ is_Some (a !! "sqlite_sequence"))
  ∧ (∃ issues st', check_normalization (connected autoincrement_db []) = (Return issues, st')
                   ∧ EvExecute 0 "SELECT name FROM sqlite_sequence LIMIT 100" true
                     ∈ trace (world st'))
  ∧ (∃ sugs st', suggest_indexes (connected autoincrement_db []) = (Return sugs, st')
                 ∧ EvExecute 0 "PRAGMA foreign_key_list(sqlite_sequence)" true
                   ∈ trace (world st')).
Proof.
  split; [reflexivity|]. split; [|split].
  - eexists _, _. split; [vm_compute; reflexivity|].
    eexists. vm_compute. reflexivity.
  - eexists _, _. split; [vm_compute; reflexivity|].
    cbn. set_solver.
  - eexists _, _. split; [vm_compute; reflexivity|].
    cbn. set_solver.
Qed.

(** ** Connection handling *)

Lemma connect_run st :
  connect st
  = match next_fault (world st) with
    | Some e => (Raise e, connect_failed e st)
    | None => (Return tt, after_connect st)
    end.
Proof.
  unfold connect, try_except, bind, get_self, sqlite3_connect, connect_failed,
    after_connect. cbn.
  destruct (next_fault (world st)) as [e|]; cbn; [|done].
  by destruct (is_sqlite3_Error e).
Qed.

Lemma close_run st : close st = (Return tt, after_close st).
Proof.
  unfold close, after_close, bind, get_self. cbn.
  by destruct (conn (self st)).
Qed.

Lemma denotes_build_report :
  denotes build_report report_outcome.
Proof.
  eapply denotes_ext.
  - unfold build_report, optimize_queries.
    eapply denotes_bind; [apply denotes_analyze_table_structure|intros ta].
    eapply denotes_bind; [apply denotes_check_normalization|intros ni].
    eapply denotes_bind; [apply denotes_suggest_indexes|intros ix].
    denote.
  - done.
Qed.

Lemma report_outcome_Return db r :
  report_outcome db = Return r → r = report_on db.
Proof.
  unfold report_outcome.
  intros (ta & Ha & H)%and_then_Return.
  apply and_then_Return in H as (ni & Hn & H).
  apply and_then_Return in H as (ix & Hx & H).
  injection H as <-.
  by rewrite (analysis_outcome_Return _ _ Ha), (issues_outcome_Return _ _ Hn),
    (suggestions_outcome_Return _ _ Hx).
Qed.

Lemma report_outcome_answered db :
  pragmas_answered db → samples_answered db →
  report_outcome db = Return (report_on db).
Proof.
  intros Hp Hs. unfold report_outcome.
  by rewrite (analysis_outcome_answered _ Hp), (issues_outcome_answered _ Hs),
    (suggestions_outcome_answered _ Hp).
Qed.

Lemma build_report_returns st r st' :
  build_report st = (Return r, st') →
  r = report_on (database (world st)) ∧ reads_only st st'.
Proof.
  intros E.
  destruct (denotes_returns _ _ _ _ _ denotes_build_report E) as [H R].
  split; [by apply report_outcome_Return|done].
Qed.

Lemma generate_optimization_report_run st :
  generate_optimization_report st
  = match next_fault (world st) with
    | Some e =>
        (Raise e,
         after_close (after_except "Error generating optimization report: " e
                        (connect_failed e st)))
    | None =>
        match build_report (after_connect st) with
        | (Return r, st2) => (Return r, after_close st2)
        | (Raise e, st2) =>
            (Raise e,
             after_close (after_except "Error generating optimization report: " e st2))
        end
    end.
Proof.
  unfold generate_optimization_report, try_finally, try_except, bind.
  rewrite connect_run.
  destruct (next_fault (world st)) as [e|].
  - unfold after_except. destruct (is_Exception e); cbn -[close]; by rewrite close_run.
  - destruct (build_report (after_connect st)) as [[r|e] st2]; cbn -[close].
    + by rewrite close_run.
    + unfold after_except. destruct (is_Exception e); cbn -[close]; by rewrite close_run.
Qed.

Lemma execute_optimization_run optimize_indexes vacuum st :
  execute_optimization optimize_indexes vacuum st
  = match next_fault (world st) with
    | Some e =>
        (Raise e,
         after_close (after_except "Error during optimization execution: " e
                        (connect_failed e st)))
    | None =>
        match optimization_steps optimize_indexes vacuum (after_connect st) with
        | (Return _, st2) => (Return tt, after_close st2)
        | (Raise e, st2) =>
            (Raise e,
             after_close (after_except "Error during optimization execution: " e st2))
        end
    end.
Proof.
  unfold execute_optimization, try_finally, try_except.
  change (bind connect _) with (bind connect (λ _, optimization_steps optimize_indexes vacuum)).
  unfold bind at 1. rewrite connect_run.
  destruct (next_fault (world st)) as [e|].
  - unfold after_except. destruct (is_Exception e); cbn -[close]; by rewrite close_run.
  - destruct (optimization_steps _ _ (after_connect st)) as [[[]|e] st2]; cbn -[close].
    + by rewrite close_run.
    + unfold after_except. destruct (is_Exception e); cbn -[close]; by rewrite close_run.
Qed.

(** C8.  On an optimizer whose [conn] is still [None], [close()] returns
    without an exception and changes nothing: no connection is closed and
    nothing is logged.  So when [connect()] fails on such an optimizer, the
    [finally] clauses of [generate_optimization_report] and
    [execute_optimization] do nothing, and both methods raise the exception
    of [connect()], having made no call but the failed
    [sqlite3.connect]. *)
Theorem close_without_connection (st : State) :
  conn (self st) = None →
  close st = (Return tt, st)
  ∧ (∀ e, next_fault (world st) = Some e →
       (connect st).1 = Raise e
       ∧ conn (self (connect st).2) = None
       ∧ close (connect st).2 = (Return tt, (connect st).2)
       ∧ (generate_optimization_report st).1 = Raise e
       ∧ trace (world (generate_optimization_report st).2)
         = trace (world st) ++ [EvConnect (db_path (self st)) None]
       ∧ open_conns (world (generate_optimization_report st).2)
         = open_conns (world st)
       ∧ ∀ optimize_indexes vacuum,
           (execute_optimization optimize_indexes vacuum st).1 = Raise e
           ∧ trace (world (execute_optimization optimize_indexes vacuum st).2)
             = trace (world st) ++ [EvConnect (db_path (self st)) None]
           ∧ open_conns (world (execute_optimization optimize_indexes vacuum st).2)
             = open_conns (world st)).
Proof.
  intros Hc. split.
  { rewrite close_run. unfold after_close. by rewrite Hc. }
  intros e He.
  assert (Hcf : conn (self (connect_failed e st)) = None) by done.
  rewrite connect_run, He. cbn [fst snd].
  split; [done|]. split; [done|].
  split. { rewrite close_run. unfold after_close. by rewrite Hcf. }
  assert (Hfin : ∀ prefix,
    let st' := after_close (after_except prefix e (connect_failed e st)) in
    trace (world st') = trace (world st) ++ [EvConnect (db_path (self st)) None]
    ∧ open_conns (world st') = open_conns (world st)).
  { intros prefix. unfold after_close, after_except, connect_failed.
    destruct (is_Exception e), (is_sqlite3_Error e); cbn; by rewrite Hc. }
  rewrite generate_optimization_report_run, He. cbn [fst snd].
  split; [done|]. split; [apply Hfin|]. split; [apply Hfin|].
  intros oi vac. rewrite execute_optimization_run, He. cbn [fst snd].
  split; [done|]. split; apply Hfin.
Qed.

Lemma close_without_connection_witness :
  close (mkState (init "shop.db")
           (fresh_world shop_db [Some (OperationalError "unable to open database file")]))
  = (Return tt,
     mkState (init "shop.db")
       (fresh_world shop_db [Some (OperationalError "unable to open database file")]))
  ∧ (generate_optimization_report
       (mkState (init "shop.db")
          (fresh_world shop_db [Some (OperationalError "unable to open database file")]))).1
    = Raise (OperationalError "unable to open database file").
Proof.
  destruct (close_without_connection
              (mkState (init "shop.db")
                 (fresh_world shop_db
                    [Some (OperationalError "unable to open database file")]))
              eq_refl) as [Hclose Hfail].
  split; [exact Hclose|].
  destruct (Hfail _ eq_refl) as (_ & _ & _ & Hgen & _).
  exact Hgen.
Defined.

(** ** The optimization executor *)

Lemma optimization_steps_off st :
  optimization_steps false false st = conn_commit st.
Proof.
  unfold optimization_steps, bind, ret. by destruct (conn_commit st) as [[[]|] ?].
Qed.

Lemma conn_commit_after_connect st :
  conn_commit (after_connect st)
  = let st1 := after_connect st in
    let h := next_conn (world st) in
    match next_fault (world st1) with
    | Some e => (Raise e, mkState (self st1)
                            (called (EvCommit h false) (database (world st1)) (world st1)))
    | None => (Return tt, mkState (self st1)
                            (called (EvCommit h true) (database (world st1)) (world st1)))
    end.
Proof.
  unfold conn_commit. cbn [after_connect self conn world].
  rewrite decide_True; [done|]. cbn. set_solver.
Qed.

(** C9.  [execute_optimization(optimize_indexes=False, vacuum=False)]
    never calls [execute]: no [CREATE INDEX] and no [VACUUM] reaches the
    database, which is left as it was whatever the engine would do.  When
    [sqlite3.connect] succeeds, the calls made are exactly: connect, commit,
    close of the connection just opened; with no fault scheduled the method
    returns normally. *)
Theorem execute_optimization_nothing_to_do (st : State) :
  let r := (execute_optimization false false st).1 in
  let st' := (execute_optimization false false st).2 in
  database (world st') = database (world st)
  ∧ (∃ evs, trace (world st') = trace (world st) ++ evs
            ∧ Forall (λ ev, is_execute ev = false) evs)
  ∧ (next_fault (world st) = None →
     let h := next_conn (world st) in
     ∃ ok, trace (world st')
           = trace (world st)
             ++ [EvConnect (db_path (self st)) (Some h); EvCommit h ok; EvClose h]
           ∧ (ok = true ↔ r = Return tt)
           ∧ h ∉ open_conns (world st'))
  ∧ (faults (world st) = [] → r = Return tt).
Proof.
  cbn zeta. rewrite execute_optimization_run, optimization_steps_off,
    conn_commit_after_connect. cbn zeta.
  destruct (next_fault (world st)) as [e|] eqn:Hf.
  - cbn [fst snd]. split; [|split; [|split]].
    + unfold after_close, after_except, connect_failed.
      destruct (is_Exception e), (is_sqlite3_Error e); cbn;
        by destruct (conn (self st)).
    + unfold after_close, after_except, connect_failed.
      destruct (is_Exception e), (is_sqlite3_Error e); cbn;
        destruct (conn (self st)); cbn;
        eexists; (split; [try rewrite <- app_assoc; reflexivity|]);
        by repeat constructor.
    + done.
    + intros Hnil. unfold next_fault in Hf. by rewrite Hnil in Hf.
  - destruct (next_fault (world (after_connect st))) as [e|] eqn:Hf2;
      cbn [fst snd].
    + split; [|split; [|split]].
      * unfold after_close, after_except. by destruct (is_Exception e).
      * unfold after_close, after_except. destruct (is_Exception e); cbn;
          eexists; (split; [rewrite <- !app_assoc; reflexivity|]);
          by repeat constructor.
      * intros _. exists false. split; [|split].
        -- unfold after_close, after_except. destruct (is_Exception e); cbn;
             by rewrite <- !app_assoc.
        -- split; intros; discriminate.
        -- unfold after_close, after_except. destruct (is_Exception e); cbn;
             set_solver.
      * intros Hnil. unfold next_fault in Hf2. cbn in Hf2.
        by rewrite Hnil in Hf2.
    + split; [|split; [|split]].
      * done.
      * cbn. eexists. split; [rewrite <- !app_assoc; reflexivity|].
        by repeat constructor.
      * intros _. exists true. split; [|split].
        -- cbn. by rewrite <- !app_assoc.
        -- done.
        -- cbn. set_solver.
      * done.
Qed.

Lemma execute_optimization_nothing_to_do_witness :
  (execute_optimization false false shop_state).1 = Return tt
  ∧ trace (world (execute_optimization false false shop_state).2)
    = [EvConnect "shop.db" (Some 0); EvCommit 0 true; EvClose 0].
Proof.
  destruct (execute_optimization_nothing_to_do shop_state)
    as (_ & _ & Htrace & Hret).
  split; [exact (Hret eq_refl)|].
  destruct (Htrace eq_refl) as [ok (Ht & Hok & _)].
  rewrite Ht. rewrite (proj2 Hok (Hret eq_refl)). reflexivity.
Defined.

(** ** The report aggregator *)

Lemma after_connect_healthy st :
  faults (world st) = [] → healthy (after_connect st).
Proof.
  intros Hf. split.
  - exists (next_conn (world st)). split; [done|]. cbn. set_solver.
  - cbn. by rewrite Hf.
Qed.

(** The state at the end of a method whose body, after a successful
    [connect()], only read: the connection of the method is closed. *)
Lemma released_after_reads st st2 stx :
  reads_only (after_connect st) st2 →
  self stx = self st2 →
  database (world stx) = database (world st2) →
  open_conns (world stx) = open_conns (world st2) →
  trace (world stx) = trace (world st2) →
  let h := next_conn (world st) in
  let st' := after_close stx in
  conn (self st') = Some h
  ∧ (h ∉ open_conns (world st'))
  ∧ open_conns (world st') ⊆ open_conns (world st)
  ∧ database (world st') = database (world st)
  ∧ ∃ reads, trace (world st')
             = trace (world st)
               ++ EvConnect (db_path (self st)) (Some h) :: (reads ++ [EvClose h])
             ∧ Forall (λ ev, is_execute ev = true) reads.
Proof.
  intros R Hs Hd Ho Ht h st'.
  destruct R as [S D _ _ O _ _ [evs [T X]]].
  assert (Hconn : conn (self stx) = Some h) by (by rewrite Hs, S).
  subst st'. unfold after_close. rewrite Hconn. cbn.
  split; [done|]. split; [set_solver|]. split.
  { rewrite Ho, O. cbn. set_solver. }
  split; [by rewrite Hd, D|].
  exists evs. split; [|done].
  rewrite Ht, T. cbn. by rewrite <- !app_assoc.
Qed.

Lemma after_except_frame prefix e st :
  self (after_except prefix e st) = self st
  ∧ database (world (after_except prefix e st)) = database (world st)
  ∧ open_conns (world (after_except prefix e st)) = open_conns (world st)
  ∧ trace (world (after_except prefix e st)) = trace (world st)
  ∧ faults (world (after_except prefix e st)) = faults (world st).
Proof. unfold after_except. by destruct (is_Exception e). Qed.

Lemma generate_optimization_report_outcome st :
  (generate_optimization_report st).1 = ((connect ;; build_report) st).1.
Proof.
  rewrite generate_optimization_report_run. unfold bind. rewrite connect_run.
  destruct (next_fault (world st)); [done|].
  by destruct (build_report (after_connect st)) as [[r|e] st2].
Qed.

(** C6.  [generate_optimization_report] calls [sqlite3.connect] first.
    However it ends, the connection held by the optimizer is closed when it
    ends, no connection is open that was not open before, the connection
    it opened is closed by its last call, and the database is as it was.
    Its outcome is the outcome of its body ([connect()] followed by the
    four analyses): the exception of the first step that fails, and a
    report only when every step has returned. *)
Theorem generate_optimization_report_releases (st : State) :
  let r := (generate_optimization_report st).1 in
  let st' := (generate_optimization_report st).2 in
  (∀ h, conn (self st') = Some h → h ∉ open_conns (world st'))
  ∧ open_conns (world st') ⊆ open_conns (world st)
  ∧ database (world st') = database (world st)
  ∧ (∃ oh evs,
       trace (world st') = trace (world st) ++ EvConnect (db_path (self st)) oh :: evs
       ∧ match oh with
         | Some h => ∃ reads, evs = reads ++ [EvClose h]
                              ∧ Forall (λ ev, is_execute ev = true) reads
                              ∧ h ∉ open_conns (world st')
         | None => ∃ e, r = Raise e
         end)
  ∧ r = ((connect ;; build_report) st).1
  ∧ (∀ e, (connect st).1 = Raise e → r = Raise e)
  ∧ (∀ st1, connect st = (Return tt, st1) →
       (∀ e, (analyze_table_structure st1).1 = Raise e → r = Raise e)
       ∧ (∀ a st2, analyze_table_structure st1 = (Return a, st2) →
            (∀ e, (check_normalization st2).1 = Raise e → r = Raise e)
            ∧ (∀ i st3, check_normalization st2 = (Return i, st3) →
                 (∀ e, (suggest_indexes st3).1 = Raise e → r = Raise e)
                 ∧ (∀ s st4, suggest_indexes st3 = (Return s, st4) →
                      ∃ q, r = Return (mkReport a i s q))))).
Proof.
  cbn zeta.
  split; [|split; [|split; [|split]]].
  - rewrite generate_optimization_report_run.
    destruct (next_fault (world st)) as [e|].
    + cbn [snd]. intros h. unfold after_close.
      destruct (conn (self (after_except _ e (connect_failed e st)))) as [h'|] eqn:Hc;
        [|by rewrite Hc].
      cbn. rewrite Hc. intros [= ->]. set_solver.
    + destruct (denotes_build_report (after_connect st)) as [R _].
      destruct (build_report (after_connect st)) as [[r|e] st2]; cbn [snd] in *.
      * destruct (released_after_reads st st2 st2 R) as (Hc & Hn & _); try done.
        intros h. rewrite Hc. by intros [= <-].
      * destruct (after_except_frame "Error generating optimization report: " e st2)
          as (F1 & F2 & F3 & F4 & _).
        destruct (released_after_reads st st2 _ R F1 F2 F3 F4) as (Hc & Hn & _).
        intros h. rewrite Hc. by intros [= <-].
  - rewrite generate_optimization_report_run.
    destruct (next_fault (world st)) as [e|].
    + cbn [snd]. unfold after_close, after_except, connect_failed.
      destruct (is_Exception e), (is_sqlite3_Error e); cbn;
        destruct (conn (self st)); cbn; set_solver.
    + destruct (denotes_build_report (after_connect st)) as [R _].
      destruct (build_report (after_connect st)) as [[r|e] st2]; cbn [snd] in *.
      * by destruct (released_after_reads st st2 st2 R) as (_ & _ & Hsub & _).
      * destruct (after_except_frame "Error generating optimization report: " e st2)
          as (F1 & F2 & F3 & F4 & _).
        by destruct (released_after_reads st st2 _ R F1 F2 F3 F4) as (_ & _ & Hsub & _).
  - rewrite generate_optimization_report_run.
    destruct (next_fault (world st)) as [e|].
    + cbn [snd]. unfold after_close, after_except, connect_failed.
      destruct (is_Exception e), (is_sqlite3_Error e); cbn;
        by destruct (conn (self st)).
    + destruct (denotes_build_report (after_connect st)) as [R _].
      destruct (build_report (after_connect st)) as [[r|e] st2]; cbn [snd] in *.
      * by destruct (released_after_reads st st2 st2 R) as (_ & _ & _ & Hdb & _).
      * destruct (after_except_frame "Error generating optimization report: " e st2)
          as (F1 & F2 & F3 & F4 & _).
        by destruct (released_after_reads st st2 _ R F1 F2 F3 F4)
          as (_ & _ & _ & Hdb & _).
  - rewrite generate_optimization_report_run.
    destruct (next_fault (world st)) as [e|].
    + cbn [fst snd]. exists None.
      unfold after_close, after_except, connect_failed.
      destruct (is_Exception e), (is_sqlite3_Error e); cbn;
        destruct (conn (self st)); cbn;
        eexists; (split; [try rewrite <- app_assoc; reflexivity|]); by exists e.
    + destruct (denotes_build_report (after_connect st)) as [R _].
      exists (Some (next_conn (world st))).
      destruct (build_report (after_connect st)) as [[r|e] st2]; cbn [fst snd] in *.
      * destruct (released_after_reads st st2 st2 R)
          as (_ & Hn & _ & _ & reads & Ht & Hr); try done.
        eexists. split; [exact Ht|]. by exists reads.
      * destruct (after_except_frame "Error generating optimization report: " e st2)
          as (F1 & F2 & F3 & F4 & _).
        destruct (released_after_reads st st2 _ R F1 F2 F3 F4)
          as (_ & Hn & _ & _ & reads & Ht & Hr).
        eexists. split; [exact Ht|]. by exists reads.
  - rewrite generate_optimization_report_outcome.
    split; [done|]. unfold build_report, bind. split.
    + intros e He. destruct (connect st) as [[[]|e'] st1]; cbn in *; congruence.
    + intros st1 ->. split.
      { intros e He.
        destruct (analyze_table_structure st1) as [[a|e'] st2]; cbn in *; congruence. }
      intros a st2 ->. split.
      { intros e He.
        destruct (check_normalization st2) as [[i|e'] st3]; cbn in *; congruence. }
      intros i st3 ->. split.
      { intros e He.
        destruct (suggest_indexes st3) as [[s|e'] st4]; cbn in *; congruence. }
      intros s st4 ->. cbn. by eexists.
Qed.

Lemma generate_optimization_report_returns st r st' :
  generate_optimization_report st = (Return r, st') →
  r = report_on (database (world st))
  ∧ database (world st') = database (world st)
  ∧ (faults (world st) = [] → faults (world st') = []).
Proof.
  rewrite generate_optimization_report_run.
  destruct (next_fault (world st)) as [e|]; [done|].
  destruct (build_report (after_connect st)) as [[r'|e] st2] eqn:E; [|done].
  intros [= -> <-].
  destruct (build_report_returns _ _ _ E) as [-> R].
  split; [done|].
  destruct R as [_ D _ _ _ _ [n F] _].
  unfold after_close. split.
  - destruct (conn (self st2)); cbn; by rewrite D.
  - intros Hf. destruct (conn (self st2)); cbn; rewrite F; cbn; rewrite Hf;
      by destruct n.
Qed.

Lemma generate_optimization_report_outcome_of st r st' :
  generate_optimization_report st = (Return r, st') →
  report_outcome (database (world st)) = Return r.
Proof.
  rewrite generate_optimization_report_run.
  destruct (next_fault (world st)) as [e|]; [done|].
  destruct (build_report (after_connect st)) as [[r'|e] st2] eqn:E; [|done].
  intros [= -> <-].
  by destruct (denotes_returns _ _ _ _ _ denotes_build_report E) as [H _].
Qed.

Lemma generate_optimization_report_total st r :
  faults (world st) = [] →
  report_outcome (database (world st)) = Return r →
  ∃ st', generate_optimization_report st = (Return r, st').
Proof.
  intros Hf Hr. rewrite generate_optimization_report_run.
  unfold next_fault. rewrite Hf.
  destruct (denotes_healthy _ _ (after_connect st) r denotes_build_report
              (after_connect_healthy _ Hf) Hr) as [st2 [E _]].
  rewrite E. by eexists.
Qed.

(** C7.  Two runs of [generate_optimization_report], the second from the
    state the first one left, that both return, return the same report: the
    same [index_suggestions] (names, statements and order) and the same
    [table_analysis]; the first run leaves the database as it was.  The
    same holds for any two runs on equal databases.  With no fault
    scheduled, the second run returns whenever the first has returned, and
    both return when SQLite answers the statements written for the tables
    and columns. *)
Theorem generate_optimization_report_idempotent (st : State) :
  (faults (world st) = [] →
   ∀ r st1, generate_optimization_report st = (Return r, st1) →
            ∃ st2, generate_optimization_report st1 = (Return r, st2))
  ∧ (faults (world st) = [] →
     pragmas_answered (database (world st)) →
     samples_answered (database (world st)) →
     ∃ r st1 st2, generate_optimization_report st = (Return r, st1)
                  ∧ generate_optimization_report st1 = (Return r, st2))
  ∧ (∀ r1 st1, generate_optimization_report st = (Return r1, st1) →
       database (world st1) = database (world st)
       ∧ ∀ r2 st2, generate_optimization_report st1 = (Return r2, st2) →
           index_suggestions r1 = index_suggestions r2
           ∧ table_analysis r1 = table_analysis r2
           ∧ r1 = r2)
  ∧ (∀ r1 st1 stB r2 st2,
       database (world stB) = database (world st) →
       generate_optimization_report st = (Return r1, st1) →
       generate_optimization_report stB = (Return r2, st2) →
       index_suggestions r1 = index_suggestions r2
       ∧ table_analysis r1 = table_analysis r2).
Proof.
  assert (Hagain : faults (world st) = [] →
            ∀ r st1, generate_optimization_report st = (Return r, st1) →
                     ∃ st2, generate_optimization_report st1 = (Return r, st2)).
  { intros Hf r st1 E1.
    pose proof (generate_optimization_report_outcome_of _ _ _ E1) as Hr.
    destruct (generate_optimization_report_returns _ _ _ E1) as (_ & Hdb & Hf1).
    apply (generate_optimization_report_total st1 r (Hf1 Hf)).
    by rewrite Hdb. }
  split; [exact Hagain|]. split; [|split].
  - intros Hf Hp Hs.
    destruct (generate_optimization_report_total st _ Hf
                (report_outcome_answered _ Hp Hs)) as [st1 E1].
    destruct (Hagain Hf _ _ E1) as [st2 E2].
    by eexists _, st1, st2.
  - intros r1 st1 E1.
    destruct (generate_optimization_report_returns _ _ _ E1) as (-> & Hdb & _).
    split; [done|]. intros r2 st2 E2.
    destruct (generate_optimization_report_returns _ _ _ E2) as (-> & _ & _).
    by rewrite Hdb.
  - intros r1 st1 stB r2 st2 Hdb E1 E2.
    destruct (generate_optimization_report_returns _ _ _ E1) as (-> & _ & _).
    destruct (generate_optimization_report_returns _ _ _ E2) as (-> & _ & _).
    by rewrite Hdb.
Qed.

Lemma generate_optimization_report_idempotent_witness :
  ∃ r st1 st2,
    generate_optimization_report shop_state = (Return r, st1)
    ∧ generate_optimization_report st1 = (Return r, st2)
    ∧ (s_sql <$> index_suggestions r)
      = ["CREATE INDEX idx_orders_customer_id ON orders(customer_id)"].
Proof.
  destruct (generate_optimization_report_idempotent shop_state)
    as (_ & Hrun & Hsame & _).
  destruct (Hrun eq_refl (proj1 shop_db_answered) (proj2 shop_db_answered))
    as (r & st1 & st2 & E1 & E2).
  exists r, st1, st2. split; [exact E1|]. split; [exact E2|].
  destruct (generate_optimization_report_returns _ _ _ E1) as (-> & _ & _).
  vm_compute. reflexivity.
Defined.

(** ** Partial failure in the executor *)

Lemma apply_suggestion_run suggestion st h :
  cursor (self st) = Some h →
  h ∈ open_conns (world st) →
  (∀ e, next_fault (world st) = Some e → is_sqlite3_Error e = true) →
  apply_suggestion suggestion st
  = (Return tt, mkState (self st) (index_attempt h (s_sql suggestion) (world st))).
Proof.
  intros Hc Ho Hs.
  unfold apply_suggestion, try_except, bind, cursor_run, cursor_execute,
    index_attempt, logger_info, logger_error.
  rewrite Hc, decide_True by done.
  destruct (next_fault (world st)) as [e|].
  - by rewrite (Hs e eq_refl).
  - by destruct (engine (world st) (s_sql suggestion) (database (world st))).
Qed.

Lemma index_attempt_frame h sql w :
  open_conns (index_attempt h sql w) = open_conns w
  ∧ engine (index_attempt h sql w) = engine w
  ∧ next_conn (index_attempt h sql w) = next_conn w
  ∧ faults (index_attempt h sql w) = tail (faults w).
Proof.
  unfold index_attempt.
  destruct (next_fault w); [done|]. by destruct (engine w sql (database w)).
Qed.

Lemma index_attempt_records h suggestion w :
  ∃ failure,
    trace (index_attempt h (s_sql suggestion) w)
    = trace w ++ [attempt_event h suggestion failure]
    ∧ log (index_attempt h (s_sql suggestion) w)
      = log w ++ [attempt_log suggestion failure].
Proof.
  unfold index_attempt.
  destruct (next_fault w) as [e|]; [by exists (Some (exc_str e))|].
  destruct (engine w (s_sql suggestion) (database w)) as [db'|msg].
  - by exists None.
  - by exists (Some msg).
Qed.

Lemma next_fault_lookup w e :
  next_fault w = Some e → faults w !! 0 = Some (Some e).
Proof.
  unfold next_fault. destruct (faults w) as [|[e'|] fs]; try done.
  by intros [= ->].
Qed.

(** The index loop runs to its end when the faults it meets are
    [sqlite3.Error]s. *)
Lemma for_each_apply_suggestion suggestions : ∀ st h,
  cursor (self st) = Some h →
  h ∈ open_conns (world st) →
  (∀ k e, (k < List.length suggestions)%nat →
          faults (world st) !! k = Some (Some e) → is_sqlite3_Error e = true) →
  for_each suggestions apply_suggestion st
  = (Return tt,
     mkState (self st)
       (foldl (λ w suggestion, index_attempt h (s_sql suggestion) w)
              (world st) suggestions)).
Proof.
  unfold for_each.
  induction suggestions as [|sug sugs IH]; intros st h Hc Ho Hs.
  - by destruct st.
  - cbn [for_fold foldl]. unfold bind.
    rewrite (apply_suggestion_run sug st h Hc Ho).
    2:{ intros e He. apply (Hs 0 e); [cbn; lia|]. by apply next_fault_lookup. }
    destruct (index_attempt_frame h (s_sql sug) (world st)) as (O & _ & _ & F).
    rewrite (IH _ h); cbn [self world]; [done|done|by rewrite O|].
    intros k e Hk Hl. apply (Hs (S k) e); [cbn; lia|].
    rewrite F in Hl. by rewrite lookup_tail in Hl.
Qed.

Lemma foldl_index_attempt h suggestions : ∀ w,
  let w' := foldl (λ w suggestion, index_attempt h (s_sql suggestion) w)
                  w suggestions in
  open_conns w' = open_conns w
  ∧ engine w' = engine w
  ∧ faults w' = drop (List.length suggestions) (faults w)
  ∧ ∃ failures,
      List.length failures = List.length suggestions
      ∧ trace w' = trace w ++ zip_with (attempt_event h) suggestions failures
      ∧ log w' = log w ++ zip_with attempt_log suggestions failures.
Proof.
  induction suggestions as [|sug sugs IH]; intros w; cbn [foldl].
  - cbn zeta. rewrite drop_0. repeat split; try done.
    exists []. by rewrite !app_nil_r.
  - destruct (index_attempt_frame h (s_sql sug) w) as (O & E & _ & F).
    destruct (index_attempt_records h sug w) as (f & T & L).
    destruct (IH (index_attempt h (s_sql sug) w)) as (O' & E' & F' & fs & Hlen & T' & L').
    cbn zeta. rewrite O', E', F', T', L', O, E, F, T, L.
    split; [done|]. split; [done|]. split.
    { destruct (faults w); cbn; [by rewrite drop_nil|done]. }
    exists (f :: fs). cbn. rewrite Hlen, <- !app_assoc. done.
Qed.

Lemma cursor_run_raises sql st e st4 h :
  cursor (self st) = Some h →
  h ∈ open_conns (world st) →
  cursor_run sql st = (Raise e, st4) →
  st4 = mkState (self st)
          (called (EvExecute h sql false) (database (world st)) (world st)).
Proof.
  intros Hc Ho. unfold cursor_run, cursor_execute.
  rewrite Hc, decide_True by done.
  destruct (next_fault (world st)); [by intros [= _ <-]|].
  destruct (engine (world st) sql (database (world st))); [done|].
  by intros [= _ <-].
Qed.

Lemma connect_returns st st1 :
  connect st = (Return tt, st1) →
  next_fault (world st) = None ∧ st1 = after_connect st.
Proof.
  rewrite connect_run. destruct (next_fault (world st)); [done|].
  by intros [= <-].
Qed.

Lemma conn_commit_run st h :
  conn (self st) = Some h →
  h ∈ open_conns (world st) →
  next_fault (world st) = None →
  conn_commit st
  = (Return tt, mkState (self st)
                  (called (EvCommit h true) (database (world st)) (world st))).
Proof.
  intros Hc Ho Hf. unfold conn_commit. by rewrite Hc, decide_True, Hf.
Qed.

Lemma cursor_run_returns sql st st4 h :
  cursor (self st) = Some h →
  h ∈ open_conns (world st) →
  cursor_run sql st = (Return tt, st4) →
  ∃ db', st4 = mkState (self st) (called (EvExecute h sql true) db' (world st)).
Proof.
  intros Hc Ho. unfold cursor_run, cursor_execute.
  rewrite Hc, decide_True by done.
  destruct (next_fault (world st)); [done|].
  destruct (engine (world st) sql (database (world st))) as [db'|]; [|done].
  intros [= <-]. by exists db'.
Qed.

(** The end of [execute_optimization] when [VACUUM] raises in state [st3]. *)
Lemma vacuum_failure_propagates st3 h e st4 :
  conn (self st3) = Some h →
  cursor (self st3) = Some h →
  h ∈ open_conns (world st3) →
  cursor_run "VACUUM" st3 = (Raise e, st4) →
  let st' := after_close
               (after_except "Error during optimization execution: " e st4) in
  trace (world st') = trace (world st3) ++ [EvExecute h "VACUUM" false; EvClose h]
  ∧ (h ∉ open_conns (world st'))
  ∧ (is_Exception e = true →
     (ERROR, "Error during optimization execution: " +:+ exc_str e)
     ∈ log (world st')).
Proof.
  intros Hconn Hcur Ho Hrun.
  rewrite (cursor_run_raises _ _ _ _ h Hcur Ho Hrun).
  unfold after_close, after_except.
  destruct (is_Exception e); cbn; rewrite Hconn; cbn.
  - split; [by rewrite <- app_assoc|]. split; [set_solver|].
    intros _. set_solver.
  - split; [by rewrite <- app_assoc|]. split; [set_solver|]. done.
Qed.

(** C5.  Let [connect()] and [suggest_indexes()] have returned in
    [execute_optimization(optimize_indexes=True, ...)], and let every
    fault met by the index loop be an [sqlite3.Error].  Then the loop runs
    to its end: every suggestion's statement is executed, in order, each
    success or failure is logged, and no failure leaves the loop.  If then
    the commit goes through (with [vacuum=False]) the method returns
    normally after commit and close, and so it does (with [vacuum=True])
    when [VACUUM] and the commit go through.  If [VACUUM] raises [e], with or
    without the index loop before it, the method raises [e]: nothing is
    committed, the error is logged by the outer handler and the connection
    is closed. *)
Theorem execute_optimization_partial_failure
    (st st1 st2 : State) (suggestions : list IndexSuggestion) :
  connect st = (Return tt, st1) →
  suggest_indexes st1 = (Return suggestions, st2) →
  (∀ k e, (k < List.length suggestions)%nat →
          faults (world st2) !! k = Some (Some e) → is_sqlite3_Error e = true) →
  let h := next_conn (world st) in
  ∃ st3 failures,
    for_each suggestions apply_suggestion st2 = (Return tt, st3)
    ∧ List.length failures = List.length suggestions
    ∧ trace (world st3)
      = trace (world st2) ++ zip_with (attempt_event h) suggestions failures
    ∧ log (world st3)
      = log (world st2) ++ zip_with attempt_log suggestions failures
    ∧ (next_fault (world st3) = None →
       (execute_optimization true false st).1 = Return tt
       ∧ trace (world (execute_optimization true false st).2)
         = trace (world st3) ++ [EvCommit h true; EvClose h])
    ∧ (∀ st4, cursor_run "VACUUM" st3 = (Return tt, st4) →
       next_fault (world st4) = None →
       (execute_optimization true true st).1 = Return tt
       ∧ trace (world (execute_optimization true true st).2)
         = trace (world st3)
           ++ [EvExecute h "VACUUM" true; EvCommit h true; EvClose h])
    ∧ (∀ e st4, cursor_run "VACUUM" st3 = (Raise e, st4) →
       (execute_optimization true true st).1 = Raise e
       ∧ trace (world (execute_optimization true true st).2)
         = trace (world st3) ++ [EvExecute h "VACUUM" false; EvClose h]
       ∧ (is_Exception e = true →
          (ERROR, "Error during optimization execution: " +:+ exc_str e)
          ∈ log (world (execute_optimization true true st).2)))
    ∧ (∀ e st4, cursor_run "VACUUM" st1 = (Raise e, st4) →
       (execute_optimization false true st).1 = Raise e
       ∧ trace (world (execute_optimization false true st).2)
         = trace (world st1) ++ [EvExecute h "VACUUM" false; EvClose h]
       ∧ (is_Exception e = true →
          (ERROR, "Error during optimization execution: " +:+ exc_str e)
          ∈ log (world (execute_optimization false true st).2))).
Proof.
  intros Hconnect Hsuggest Hfaults h.
  destruct (connect_returns _ _ Hconnect) as [Hnf ->].
  destruct (suggest_indexes_returns _ _ _ Hsuggest) as [_ R].
  assert (Hcur1 : cursor (self (after_connect st)) = Some h) by done.
  assert (Hconn1 : conn (self (after_connect st)) = Some h) by done.
  assert (Hopen1 : h ∈ open_conns (world (after_connect st))) by (cbn; set_solver).
  assert (Hcur : cursor (self st2) = Some h) by (by rewrite (ro_self _ _ R)).
  assert (Hconn : conn (self st2) = Some h) by (by rewrite (ro_self _ _ R)).
  assert (Hopen : h ∈ open_conns (world st2)) by (by rewrite (ro_open_conns _ _ R)).
  pose proof (for_each_apply_suggestion suggestions st2 h Hcur Hopen Hfaults) as Hloop.
  destruct (foldl_index_attempt h suggestions (world st2))
    as (O & _ & _ & failures & Hlen & T & L).
  set (st3 := mkState (self st2)
                (foldl (λ w suggestion, index_attempt h (s_sql suggestion) w)
                       (world st2) suggestions)) in *.
  assert (Hopen3 : h ∈ open_conns (world st3)) by (cbn; by rewrite O).
  exists st3, failures.
  split; [done|]. split; [done|]. split; [done|]. split; [done|].
  split; [|split; [|split]].
  - intros Hnf3.
    rewrite execute_optimization_run, Hnf.
    unfold optimization_steps, bind. rewrite Hsuggest, Hloop. unfold ret.
    rewrite (conn_commit_run st3 h Hconn Hopen3 Hnf3).
    cbn [fst snd]. split; [done|].
    unfold after_close. cbn. rewrite Hconn. cbn. by rewrite <- app_assoc.
  - intros st4 Hvac Hnf4.
    rewrite execute_optimization_run, Hnf.
    unfold optimization_steps, bind. rewrite Hsuggest, Hloop, Hvac.
    destruct (cursor_run_returns _ st3 _ h Hcur Hopen3 Hvac) as [db' ->].
    unfold logger_info.
    rewrite (conn_commit_run _ h); [|done|done|done].
    cbn [fst snd]. split; [done|].
    unfold after_close. cbn. rewrite Hconn. cbn. by rewrite <- !app_assoc.
  - intros e st4 Hvac.
    rewrite execute_optimization_run, Hnf.
    unfold optimization_steps, bind. rewrite Hsuggest, Hloop, Hvac.
    cbn [fst snd]. split; [done|].
    destruct (vacuum_failure_propagates st3 h e st4 Hconn Hcur Hopen3 Hvac)
      as (Ht & _ & Hl).
    by split.
  - intros e st4 Hvac.
    rewrite execute_optimization_run, Hnf.
    unfold optimization_steps, bind, ret. rewrite Hvac.
    cbn [fst snd]. split; [done|].
    destruct (vacuum_failure_propagates _ h e st4 Hconn1 Hcur1 Hopen1 Hvac)
      as (Ht & _ & Hl).
    by split.
Qed.

Lemma execute_optimization_partial_failure_witness :
  (execute_optimization true false strict_state).1 = Return tt
  ∧ (execute_optimization true true strict_state).1
    = Raise (OperationalError "database or disk is full").
Proof.
  edestruct (execute_optimization_partial_failure strict_state)
    as (st3 & failures & Hloop & _ & _ & _ & Hcommit & _ & Hvacuum & _).
  - reflexivity.
  - reflexivity.
  - intros k e _ Hk. cbn in Hk. by rewrite lookup_nil in Hk.
  - vm_compute in Hloop. injection Hloop as <-.
    split.
    + exact (proj1 (Hcommit eq_refl)).
    + exact (proj1 (Hvacuum _ _ eq_refl)).
Defined.

Lemma generate_optimization_report_releases_witness :
  (generate_optimization_report locked_state).1
  = Raise (OperationalError "database is locked")
  ∧ open_conns (world (generate_optimization_report locked_state).2) ⊆ ∅.
Proof.
  destruct (generate_optimization_report_releases locked_state)
    as (_ & Hsub & _ & _ & _ & _ & Hsteps).
  split; [|exact Hsub].
  destruct (Hsteps (after_connect locked_state) eq_refl) as [Hfirst _].
  apply Hfirst. reflexivity.
Defined.

(** * Further properties of the methods *)

(** ** [connect] and [close] *)

(** X1.  When [sqlite3.connect] succeeds, [connect()] returns, [conn] and
    [cursor] both refer to the connection just opened, which is open, no
    connection that was open has been closed, one call is recorded and one
    line is logged; with no fault ahead the optimizer is then in a healthy
    state, in which an analysis returns when SQLite answers its
    statements. *)
Theorem connect_opens_connection (st : State) :
  next_fault (world st) = None →
  let h := next_conn (world st) in
  let st' := (connect st).2 in
  (connect st).1 = Return tt
  ∧ conn (self st') = Some h
  ∧ cursor (self st') = Some h
  ∧ db_path (self st') = db_path (self st)
  ∧ open_conns (world st') = {[h]} ∪ open_conns (world st)
  ∧ trace (world st') = trace (world st) ++ [EvConnect (db_path (self st)) (Some h)]
  ∧ log (world st')
    = log (world st)
      ++ [(INFO, "Successfully connected to database: " +:+ db_path (self st))]
  ∧ (faults (world st) = [] →
     healthy st'
     ∧ (pragmas_answered (database (world st)) →
        ∃ s st2, suggest_indexes st' = (Return s, st2))).
Proof.
  intros Hf h st'. subst st'. rewrite connect_run, Hf. cbn [fst snd].
  repeat (split; [done|]).
  intros Hnil. pose proof (after_connect_healthy st Hnil) as Hh.
  split; [done|]. intros Hp.
  destruct (suggest_indexes_healthy _ Hh Hp) as [st2 [E _]].
  by eexists _, st2.
Qed.

Lemma connect_opens_connection_witness :
  (connect shop_state).1 = Return tt
  ∧ conn (self (connect shop_state).2) = Some 0
  ∧ ∃ s st2, suggest_indexes (connect shop_state).2 = (Return s, st2).
Proof.
  destruct (connect_opens_connection shop_state eq_refl)
    as (Hr & Hc & _ & _ & _ & _ & _ & Hrun).
  split; [exact Hr|]. split; [exact Hc|].
  exact (proj2 (Hrun eq_refl) (proj1 shop_db_answered)).
Defined.

(** X2.  When [sqlite3.connect] raises [e], [connect()] raises [e] and
    leaves [conn], [cursor] and the open connections as they were; the
    error is logged by [connect()] exactly when [e] is an
    [sqlite3.Error]. *)
Theorem connect_failure (st : State) (e : PyExc) :
  next_fault (world st) = Some e →
  let st' := (connect st).2 in
  (connect st).1 = Raise e
  ∧ self st' = self st
  ∧ open_conns (world st') = open_conns (world st)
  ∧ trace (world st') = trace (world st) ++ [EvConnect (db_path (self st)) None]
  ∧ log (world st')
    = log (world st)
      ++ (if is_sqlite3_Error e
          then [(ERROR, "Error connecting to database: " +:+ exc_str e)]
          else []).
Proof.
  intros Hf st'. subst st'. rewrite connect_run, Hf. cbn [fst snd].
  unfold connect_failed. destruct (is_sqlite3_Error e); cbn.
  - done.
  - by rewrite app_nil_r.
Qed.

Lemma connect_failure_witness :
  (connect (mkState (init "shop.db")
              (fresh_world shop_db
                 [Some (OperationalError "unable to open database file")]))).1
  = Raise (OperationalError "unable to open database file")
  ∧ log (world (connect (mkState (init "shop.db")
              (fresh_world shop_db
                 [Some (OperationalError "unable to open database file")]))).2)
    = [(ERROR, "Error connecting to database: unable to open database file")].
Proof.
  destruct (connect_failure
              (mkState (init "shop.db")
                 (fresh_world shop_db
                    [Some (OperationalError "unable to open database file")]))
              _ eq_refl) as (Hr & _ & _ & _ & Hl).
  split; [exact Hr|exact Hl].
Defined.

(** X3.  [close()] closes the connection but keeps the handle: [conn] and
    [cursor] still refer to the closed connection, so a second [close()]
    closes it again (which changes nothing in the set of open connections)
    and logs the same line again. *)
Theorem close_keeps_handle (st : State) (h : ConnId) :
  conn (self st) = Some h →
  let st1 := (close st).2 in
  let st2 := (close st1).2 in
  (close st).1 = Return tt
  ∧ self st1 = self st
  ∧ open_conns (world st1) = open_conns (world st) ∖ {[h]}
  ∧ (close st1).1 = Return tt
  ∧ open_conns (world st2) = open_conns (world st1)
  ∧ trace (world st2) = trace (world st) ++ [EvClose h; EvClose h]
  ∧ log (world st2)
    = log (world st)
      ++ [(INFO, "Database connection closed"); (INFO, "Database connection closed")].
Proof.
  intros Hc st1 st2. subst st1 st2. rewrite !close_run. cbn [fst snd].
  unfold after_close at 2 3 4 5 6. rewrite Hc. cbn.
  unfold after_close. rewrite Hc. cbn. rewrite Hc. cbn.
  repeat split; try done.
  - set_solver.
  - by rewrite <- app_assoc.
  - by rewrite <- app_assoc.
Qed.

Lemma close_keeps_handle_witness :
  conn (self (close (connected shop_db [])).2) = Some 0
  ∧ open_conns (world (close (connected shop_db [])).2) = ({[0]} : gset nat) ∖ {[0]}.
Proof.
  destruct (close_keeps_handle (connected shop_db []) 0 eq_refl)
    as (_ & Hs & Ho & _).
  split; [by rewrite Hs|exact Ho].
Defined.

(** ** The analyses outside a report *)

Lemma query_without_cursor {A} sql (answer : Database → Outcome A) st :
  cursor (self st) = None →
  cursor_query sql answer st = (Raise (AttributeError "execute"), st).
Proof. intros H. unfold cursor_query, cursor_execute. by rewrite H. Qed.

Lemma query_on_closed {A} sql (answer : Database → Outcome A) st h :
  cursor (self st) = Some h →
  h ∉ open_conns (world st) →
  cursor_query sql answer st = (Raise ProgrammingError_closed, st).
Proof.
  intros H Hn. unfold cursor_query, cursor_execute.
  by rewrite H, decide_False.
Qed.

(** X4.  On an optimizer on which [connect()] has not run ([cursor] is
    [None]) each of the three analyses raises
    [AttributeError: 'NoneType' object has no attribute 'execute'] at its
    first statement, and nothing is called or logged. *)
Theorem analyses_without_cursor (st : State) :
  cursor (self st) = None →
  analyze_table_structure st = (Raise (AttributeError "execute"), st)
  ∧ check_normalization st = (Raise (AttributeError "execute"), st)
  ∧ suggest_indexes st = (Raise (AttributeError "execute"), st)
  ∧ is_sqlite3_Error (AttributeError "execute") = false.
Proof.
  intros H.
  unfold analyze_table_structure, check_normalization, suggest_indexes,
    select_table_names, bind.
  by rewrite !(query_without_cursor _ _ st H).
Qed.

Lemma analyses_without_cursor_witness :
  suggest_indexes shop_state = (Raise (AttributeError "execute"), shop_state).
Proof.
  exact (proj1 (proj2 (proj2 (analyses_without_cursor shop_state eq_refl)))).
Defined.

Lemma analyses_on_closed st h :
  cursor (self st) = Some h →
  h ∉ open_conns (world st) →
  analyze_table_structure st = (Raise ProgrammingError_closed, st)
  ∧ check_normalization st = (Raise ProgrammingError_closed, st)
  ∧ suggest_indexes st = (Raise ProgrammingError_closed, st).
Proof.
  intros H Hn.
  unfold analyze_table_structure, check_normalization, suggest_indexes,
    select_table_names, bind.
  by rewrite !(query_on_closed _ _ st h H Hn).
Qed.

Lemma generate_optimization_report_final st :
  next_fault (world st) = None →
  let st' := (generate_optimization_report st).2 in
  self st' = self (after_connect st)
  ∧ next_conn (world st) ∉ open_conns (world st').
Proof.
  intros Hf. cbn zeta. rewrite generate_optimization_report_run, Hf.
  destruct (denotes_build_report (after_connect st)) as [R _].
  destruct (build_report (after_connect st)) as [[r|e] st2]; cbn [snd] in *.
  - destruct (released_after_reads st st2 st2 R) as (_ & Hn & _); try done.
    split; [|done]. unfold after_close. rewrite <- (ro_self _ _ R).
    by destruct (conn (self st2)).
  - destruct (after_except_frame "Error generating optimization report: " e st2)
      as (F1 & F2 & F3 & F4 & _).
    destruct (released_after_reads st st2 _ R F1 F2 F3 F4) as (_ & Hn & _).
    split; [|done]. unfold after_close. rewrite <- (ro_self _ _ R), <- F1.
    by destruct (conn (self (after_except _ e st2))).
Qed.

(** X5.  After [generate_optimization_report], whether it returned or
    raised (the connection having been opened), the optimizer holds a
    cursor on the closed connection: each of the three analyses, called
    directly, raises the [sqlite3] error
    [Cannot operate on a closed database.] and calls nothing. *)
Theorem analyses_after_report (st : State) :
  next_fault (world st) = None →
  let st' := (generate_optimization_report st).2 in
  cursor (self st') = Some (next_conn (world st))
  ∧ analyze_table_structure st' = (Raise ProgrammingError_closed, st')
  ∧ check_normalization st' = (Raise ProgrammingError_closed, st')
  ∧ suggest_indexes st' = (Raise ProgrammingError_closed, st')
  ∧ is_sqlite3_Error ProgrammingError_closed = true.
Proof.
  intros Hf st'.
  destruct (generate_optimization_report_final st Hf) as [Hs Hn].
  fold st' in Hs, Hn.
  assert (Hc : cursor (self st') = Some (next_conn (world st))) by (by rewrite Hs).
  split; [done|].
  destruct (analyses_on_closed st' _ Hc Hn) as (H1 & H2 & H3).
  done.
Qed.

Lemma analyses_after_report_witness :
  suggest_indexes (generate_optimization_report shop_state).2
  = (Raise ProgrammingError_closed, (generate_optimization_report shop_state).2).
Proof.
  destruct (analyses_after_report shop_state eq_refl) as (_ & _ & _ & H & _).
  exact H.
Defined.

(** ** The table analysis *)

Lemma lookup_foldl_insert {V} (f : string → V) (l : list string)
    (m : gmap string V) (t : string) :
  foldl (λ acc t, <[t := f t]> acc) m l !! t
  = if decide (t ∈ l) then Some (f t) else m !! t.
Proof.
  revert m. induction l as [|x l IH]; intros m; cbn.
  - by rewrite decide_False by apply not_elem_of_nil.
  - rewrite IH. destruct (decide (t ∈ l)) as [Hin|Hin].
    + by rewrite decide_True by (by right).
    + destruct (decide (x = t)) as [->|Hne].
      * rewrite decide_True by left. by rewrite lookup_insert_eq.
      * rewrite decide_False.
        -- by rewrite lookup_insert_ne.
        -- intros [?|?]%elem_of_cons; congruence.
Qed.

(** X6.  In the dictionary [analyze_table_structure] returns, the entry
    of an enumerated table holds the rows of its three pragmas, and a name
    that is not enumerated has no entry; when no row of [sqlite_master]
    has type ['table'] the dictionary is empty. *)
Theorem analyze_table_structure_entries
    (st : State) (a : gmap string TableAnalysis) (st' : State) :
  analyze_table_structure st = (Return a, st') →
  let db := database (world st) in
  (∀ t, t ∈ master_table_names db →
        a !! t = Some (mkAnalysis (table_info t db) (index_list t db)
                         (foreign_key_list t db)))
  ∧ (∀ t, t ∉ master_table_names db → a !! t = None)
  ∧ (master_table_names db = [] → a = ∅).
Proof.
  intros E db.
  destruct (analyze_table_structure_returns _ _ _ E) as [-> _].
  fold db. unfold analysis_on.
  split; [|split].
  - intros t Ht.
    rewrite (lookup_foldl_insert
               (λ t, mkAnalysis (table_info t db) (index_list t db)
                       (foreign_key_list t db))).
    by rewrite decide_True.
  - intros t Ht.
    rewrite (lookup_foldl_insert
               (λ t, mkAnalysis (table_info t db) (index_list t db)
                       (foreign_key_list t db))).
    by rewrite decide_False.
  - by intros ->.
Qed.

Lemma analyze_table_structure_entries_witness :
  ∃ a st', analyze_table_structure (connected shop_db []) = (Return a, st')
           ∧ a !! "orders"
             = Some (mkAnalysis orders_columns [] orders_foreign_keys)
           ∧ a !! "idx_orders_customer_id" = None.
Proof.
  destruct (analyze_table_structure_healthy (connected shop_db [])
              (connected_healthy _) (proj1 shop_db_answered)) as [st' [E _]].
  eexists _, st'. split; [exact E|].
  destruct (analyze_table_structure_entries _ _ _ E) as (Hin & Hout & _).
  split.
  - rewrite Hin; [reflexivity|]. cbn. set_solver.
  - apply Hout. cbn. set_solver.
Defined.

(** ** Sampling *)

Lemma issues_for_flagged t c v :
  issues_for t c v = if is_flagged v then [issue_of (t, c, v)] else [].
Proof.
  destruct v; try (by rewrite issues_for_not_text).
  by rewrite issues_for_text.
Qed.

Lemma fmap_filter_bind {A B C} (f : B → C) (P : B → Prop) `{!∀ x, Decision (P x)}
    (g : A → list B) (l : list A) :
  f <$> filter P (l ≫= g) = l ≫= λ x, f <$> filter P (g x).
Proof.
  induction l as [|x l IH]; [done|].
  by rewrite !bind_cons, filter_app, fmap_app, IH.
Qed.

Lemma issues_on_flagged db :
  issues_on db
  = issue_of <$> filter (λ x, is_flagged x.2 = true) (sampled_values db).
Proof.
  unfold issues_on, sampled_values.
  rewrite fmap_filter_bind. apply list_bind_ext; [|done]. intros t.
  rewrite fmap_filter_bind. apply list_bind_ext; [|done]. intros col.
  induction (samples_of t (col_name col) db) as [|v vs IH]; [done|].
  rewrite bind_cons, fmap_cons, filter_cons, IH, issues_for_flagged. cbn.
  destruct (is_flagged v).
  - by rewrite decide_True.
  - by rewrite decide_False.
Qed.

Lemma length_sampled_columns t db (cols : list ColumnRow) :
  Forall (λ tc : string * ColumnRow,
            (List.length (samples_of tc.1 (col_name tc.2) db) ≤ 100)%nat)
         (pair t <$> cols) →
  (List.length (cols ≫= λ col,
      (λ v, (t, col_name col, v)) <$> samples_of t (col_name col) db)
   ≤ 100 * List.length (pair t <$> cols))%nat.
Proof.
  induction cols as [|col cols IH]; intros H; [cbn; lia|].
  rewrite fmap_cons in H. apply Forall_cons in H as [Hcol H].
  rewrite bind_cons, length_app, length_fmap, fmap_cons.
  specialize (IH H). cbn [List.length fst snd] in *. lia.
Qed.

Lemma length_sampled_values db :
  Forall (λ tc : string * ColumnRow,
            (List.length (samples_of tc.1 (col_name tc.2) db) ≤ 100)%nat)
         (master_table_names db ≫= λ t, pair t <$> table_info t db) →
  (List.length (sampled_values db)
   ≤ 100 * List.length (master_table_names db ≫= λ t, pair t <$> table_info t db))%nat.
Proof.
  unfold sampled_values.
  induction (master_table_names db) as [|t ts IH]; intros H; [cbn; lia|].
  rewrite bind_cons in H. apply Forall_app in H as [Ht H].
  rewrite !bind_cons, !length_app.
  pose proof (length_sampled_columns t db _ Ht). specialize (IH H). lia.
Qed.

(** X7.  [check_normalization] reads every column with one
    [SELECT ... LIMIT 100] and adds at most one issue per value SQLite
    answers: whenever it returns, there are no more issues than sampled
    values, so when SQLite answers each of these statements with at most
    100 values, as the [LIMIT] asks, there are at most 100 issues per
    listed column. *)
Theorem check_normalization_sample_limit
    (st : State) (issues : list NormalizationIssue) (st' : State) :
  check_normalization st = (Return issues, st') →
  let db := database (world st) in
  let columns := master_table_names db ≫= λ t, pair t <$> table_info t db in
  (List.length issues ≤ List.length (sampled_values db))%nat
  ∧ (Forall (λ tc : string * ColumnRow,
               (List.length (samples_of tc.1 (col_name tc.2) db) ≤ 100)%nat)
            columns →
     (List.length issues ≤ 100 * List.length columns)%nat).
Proof.
  intros E db columns.
  destruct (check_normalization_returns _ _ _ E) as [-> _].
  fold db. rewrite issues_on_flagged, length_fmap.
  pose proof (length_filter (λ x : string * string * SqlValue, is_flagged x.2 = true)
                (sampled_values db)) as Hle.
  split; [exact Hle|].
  intros Hlim. pose proof (length_sampled_values db Hlim). subst columns. lia.
Qed.

Lemma check_normalization_sample_limit_witness :
  ∃ issues st', check_normalization (connected shop_db []) = (Return issues, st')
                ∧ (List.length issues ≤ 500)%nat.
Proof.
  destruct (check_normalization_healthy (connected shop_db []) (connected_healthy _)
              (proj2 shop_db_answered)) as [st' [E _]].
  eexists _, st'. split; [exact E|].
  destruct (check_normalization_sample_limit _ _ _ E) as [_ Hlim].
  apply Hlim. cbn. compute_done.
Defined.

(** X8.  [check_normalization] does not deduplicate: whenever it returns,
    the issues are, in the order SQLite answered the values, one issue for
    each sampled value in which a delimiter occurs, so a column in which
    the same delimited text is sampled n times gives n equal issues. *)
Theorem check_normalization_one_issue_per_flagged_sample
    (st : State) (issues : list NormalizationIssue) (st' : State) :
  check_normalization st = (Return issues, st') →
  let db := database (world st) in
  issues = issue_of <$> filter (λ x, is_flagged x.2 = true) (sampled_values db)
  ∧ List.length issues
    = List.length (filter (λ x, is_flagged x.2 = true) (sampled_values db))
  ∧ (∀ t c s n,
       has_delimiter s →
       replicate n (VText s) ≫= issues_for t c
       = replicate n (issue_of (t, c, VText s))).
Proof.
  intros E db.
  destruct (check_normalization_returns _ _ _ E) as [-> _].
  fold db. rewrite issues_on_flagged.
  split; [done|]. split; [by rewrite length_fmap|].
  intros t c s n H. induction n as [|n IH]; [done|].
  cbn [replicate]. rewrite bind_cons, IH, issues_for_delimited by done. done.
Qed.

Lemma tags_db_answered : samples_answered tags_db.
Proof. compute_done. Qed.

Lemma check_normalization_one_issue_per_flagged_sample_witness :
  ∃ st', check_normalization (connected tags_db [])
         = (Return (replicate 3 (issue_of ("posts", "tags", VText "red;green"))), st').
Proof.
  destruct (check_normalization_healthy (connected tags_db []) (connected_healthy _)
              tags_db_answered) as [st' [E _]].
  exists st'.
  destruct (check_normalization_one_issue_per_flagged_sample _ _ _ E)
    as (Hall & _ & _).
  rewrite Hall in E. exact E.
Defined.

(** ** Reports of special databases and failed connections *)

Lemma master_table_names_nil db :
  Forall (λ row, m_type row ≠ "table") (sqlite_master db) →
  master_table_names db = [].
Proof.
  intros H. unfold master_table_names.
  rewrite (filter_none (λ r, m_type r = "table")); done.
Qed.

(** X9.  On a database in which no row of [sqlite_master] has type
    ['table'] (an empty schema, or one with views and stray index rows
    only), a report that is returned has an empty [table_analysis], no
    issue, no suggestion, and the six fixed lines of query advice. *)
Theorem report_without_tables (st : State) (r : Report) (st' : State) :
  Forall (λ row, m_type row ≠ "table") (sqlite_master (database (world st))) →
  generate_optimization_report st = (Return r, st') →
  table_analysis r = ∅
  ∧ normalization_issues r = []
  ∧ index_suggestions r = []
  ∧ List.length (query_optimizations r) = 6%nat
  ∧ query_optimizations r !! 0%nat
    = Some "-- Use EXISTS instead of IN for better performance".
Proof.
  intros Hno E.
  destruct (generate_optimization_report_returns _ _ _ E) as (-> & _ & _).
  pose proof (master_table_names_nil _ Hno) as Hnil.
  unfold report_on, analysis_on, issues_on, suggestions_on. cbn.
  by rewrite Hnil.
Qed.

Lemma report_without_tables_witness :
  ∃ r st', generate_optimization_report
             (mkState (init "empty.db") (fresh_world tableless_db []))
           = (Return r, st')
           ∧ table_analysis r = ∅ ∧ index_suggestions r = [].
Proof.
  destruct (generate_optimization_report_total
              (mkState (init "empty.db") (fresh_world tableless_db []))
              (report_on tableless_db) eq_refl eq_refl)
    as [st' E].
  eexists _, st'. split; [exact E|].
  assert (Hno : Forall (λ row, m_type row ≠ "table") (sqlite_master tableless_db))
    by (cbn; compute_done).
  destruct (report_without_tables
              (mkState (init "empty.db") (fresh_world tableless_db [])) _ _ Hno E)
    as (Ha & _ & Hs & _).
  split; [exact Ha|exact Hs].
Defined.

(** X10.  When [sqlite3.connect] raises [e] on an optimizer without a
    connection, [generate_optimization_report] and [execute_optimization]
    raise [e] and log it once per handler that catches it: an
    [sqlite3.Error] is logged twice (by [connect()] and by the method), any
    other [Exception] once (by the method), and an exception outside
    [Exception] not at all. *)
Theorem connect_failure_logged_per_handler (st : State) (e : PyExc) :
  conn (self st) = None →
  next_fault (world st) = Some e →
  (generate_optimization_report st).1 = Raise e
  ∧ log (world (generate_optimization_report st).2)
    = log (world st)
      ++ (if is_sqlite3_Error e
          then [(ERROR, "Error connecting to database: " +:+ exc_str e)] else [])
      ++ (if is_Exception e
          then [(ERROR, "Error generating optimization report: " +:+ exc_str e)]
          else [])
  ∧ ∀ optimize_indexes vacuum,
      (execute_optimization optimize_indexes vacuum st).1 = Raise e
      ∧ log (world (execute_optimization optimize_indexes vacuum st).2)
        = log (world st)
          ++ (if is_sqlite3_Error e
              then [(ERROR, "Error connecting to database: " +:+ exc_str e)] else [])
          ++ (if is_Exception e
              then [(ERROR, "Error during optimization execution: " +:+ exc_str e)]
              else []).
Proof.
  intros Hc Hf.
  assert (Hlog : ∀ prefix,
    log (world (after_close (after_except prefix e (connect_failed e st))))
    = log (world st)
      ++ (if is_sqlite3_Error e
          then [(ERROR, "Error connecting to database: " +:+ exc_str e)] else [])
      ++ (if is_Exception e then [(ERROR, prefix +:+ exc_str e)] else [])).
  { intros prefix. unfold after_close, after_except, connect_failed.
    destruct (is_Exception e), (is_sqlite3_Error e); cbn; rewrite Hc; cbn;
      by rewrite <- ?app_assoc, ?app_nil_r. }
  rewrite generate_optimization_report_run, Hf. cbn [fst snd].
  split; [done|]. split; [apply Hlog|].
  intros oi vac. rewrite execute_optimization_run, Hf. cbn [fst snd].
  split; [done|apply Hlog].
Qed.

Lemma connect_failure_logged_per_handler_witness :
  log (world (generate_optimization_report
                (mkState (init "shop.db")
                   (fresh_world shop_db
                      [Some (OperationalError "unable to open database file")]))).2)
  = [(ERROR, "Error connecting to database: unable to open database file");
     (ERROR, "Error generating optimization report: unable to open database file")].
Proof.
  destruct (connect_failure_logged_per_handler
              (mkState (init "shop.db")
                 (fresh_world shop_db
                    [Some (OperationalError "unable to open database file")]))
              _ eq_refl eq_refl) as (_ & Hl & _).
  exact Hl.
Defined.

(** ** More on the executor *)

Lemma cursor_run_applied sql st h db' :
  cursor (self st) = Some h →
  h ∈ open_conns (world st) →
  next_fault (world st) = None →
  engine (world st) sql (database (world st)) = Applied db' →
  cursor_run sql st
  = (Return tt, mkState (self st) (called (EvExecute h sql true) db' (world st))).
Proof.
  intros Hc Ho Hf He. unfold cursor_run, cursor_execute.
  by rewrite Hc, decide_True, Hf, He.
Qed.

(** X11.  [execute_optimization(optimize_indexes=False, vacuum=True)]
    with no fault scheduled and an engine that applies [VACUUM]: the
    catalogue is not queried; the calls are connect, [VACUUM], commit,
    close; the database is what the engine made of it, and the method
    returns after logging the three steps. *)
Theorem execute_optimization_vacuum_only (st : State) (db' : Database) :
  faults (world st) = [] →
  engine (world st) "VACUUM" (database (world st)) = Applied db' →
  let h := next_conn (world st) in
  let st' := (execute_optimization false true st).2 in
  (execute_optimization false true st).1 = Return tt
  ∧ database (world st') = db'
  ∧ trace (world st')
    = trace (world st)
      ++ [EvConnect (db_path (self st)) (Some h); EvExecute h "VACUUM" true;
          EvCommit h true; EvClose h]
  ∧ log (world st')
    = log (world st)
      ++ [(INFO, "Successfully connected to database: " +:+ db_path (self st));
          (INFO, "Database vacuumed successfully");
          (INFO, "Database connection closed")]
  ∧ (h ∉ open_conns (world st')).
Proof.
  intros Hf He h st'. subst st'.
  assert (Hnf : next_fault (world st) = None) by (unfold next_fault; by rewrite Hf).
  rewrite execute_optimization_run, Hnf.
  unfold optimization_steps, bind, ret.
  rewrite (cursor_run_applied "VACUUM" (after_connect st) h db');
    [|done|cbn; set_solver|cbn; unfold next_fault; cbn; by rewrite Hf|done].
  unfold logger_info.
  rewrite (conn_commit_run _ h);
    [|done|cbn; set_solver|cbn; unfold next_fault; cbn; by rewrite Hf].
  cbn. repeat split; try done.
  - by rewrite <- !app_assoc.
  - by rewrite <- !app_assoc.
  - set_solver.
Qed.

Lemma execute_optimization_vacuum_only_witness :
  (execute_optimization false true shop_state).1 = Return tt
  ∧ trace (world (execute_optimization false true shop_state).2)
    = [EvConnect "shop.db" (Some 0); EvExecute 0 "VACUUM" true;
       EvCommit 0 true; EvClose 0].
Proof.
  destruct (execute_optimization_vacuum_only shop_state shop_db eq_refl eq_refl)
    as (Hr & _ & Ht & _).
  split; [exact Hr|exact Ht].
Defined.

Lemma runs_statements_refl st : runs_statements st st.
Proof.
  split; try done. exists []. by rewrite app_nil_r.
Qed.

Lemma runs_statements_trans st1 st2 st3 :
  runs_statements st1 st2 → runs_statements st2 st3 → runs_statements st1 st3.
Proof.
  intros [S1 O1 [ev1 [T1 X1]]] [S2 O2 [ev2 [T2 X2]]].
  split; try congruence.
  exists (ev1 ++ ev2). split.
  - rewrite T2, T1. by rewrite app_assoc.
  - by apply Forall_app.
Qed.

Lemma reads_only_runs_statements st st' :
  reads_only st st' → runs_statements st st'.
Proof. intros [S _ _ _ O _ _ T]. by split. Qed.

Lemma executes_only_ret {A} (a : A) : executes_only (ret a).
Proof. intros st. apply runs_statements_refl. Qed.

Lemma executes_only_raise {A} e : executes_only (@raise A e).
Proof. intros st. apply runs_statements_refl. Qed.

Lemma executes_only_bind {A B} (m : Py A) (k : A → Py B) :
  executes_only m → (∀ a, executes_only (k a)) → executes_only (bind m k).
Proof.
  intros Hm Hk st. unfold bind. specialize (Hm st).
  destruct (m st) as [[a|e] st1]; cbn in *; [|done].
  eapply runs_statements_trans; [exact Hm|apply Hk].
Qed.

Lemma executes_only_try_except {A} (body : Py A) catches handler :
  executes_only body → (∀ e, executes_only (handler e)) →
  executes_only (try_except body catches handler).
Proof.
  intros Hb Hh st. unfold try_except. specialize (Hb st).
  destruct (body st) as [[a|e] st1]; cbn in *; [done|].
  destruct (catches e); [|done].
  eapply runs_statements_trans; [exact Hb|apply Hh].
Qed.

Lemma executes_only_for_fold {A B} (xs : list A) (body : B → A → Py B) :
  (∀ acc x, executes_only (body acc x)) →
  ∀ acc, executes_only (for_fold xs acc body).
Proof.
  intros Hb. induction xs as [|x xs IH]; intros acc; cbn [for_fold].
  - apply executes_only_ret.
  - apply executes_only_bind; [apply Hb|apply IH].
Qed.

Lemma executes_only_logger_info msg : executes_only (logger_info msg).
Proof. intros st. split; try done. exists []. by rewrite app_nil_r. Qed.

Lemma executes_only_logger_error msg : executes_only (logger_error msg).
Proof. intros st. split; try done. exists []. by rewrite app_nil_r. Qed.

Lemma executes_only_cursor_execute {A} sql (sem : Database → Outcome (A * Database)) :
  executes_only (cursor_execute sql sem).
Proof.
  intros st. unfold cursor_execute.
  destruct (cursor (self st)) as [h|]; [|apply runs_statements_refl].
  case_decide; [|apply runs_statements_refl].
  assert (Hstep : ∀ ok db,
    runs_statements st (mkState (self st) (called (EvExecute h sql ok) db (world st)))).
  { intros ok db. split; try done.
    exists [EvExecute h sql ok]. split; [done|]. by repeat constructor. }
  destruct (next_fault (world st)); [apply Hstep|].
  destruct (sem (database (world st))) as [[a db']|e]; apply Hstep.
Qed.

Lemma executes_only_cursor_run sql : executes_only (cursor_run sql).
Proof. intros st. unfold cursor_run. apply executes_only_cursor_execute. Qed.

Lemma executes_only_denotes {A} (m : Py A) d : denotes m d → executes_only m.
Proof.
  intros H st. destruct (H st) as [R _]. by apply reads_only_runs_statements.
Qed.

Lemma executes_only_apply_suggestion suggestion :
  executes_only (apply_suggestion suggestion).
Proof.
  unfold apply_suggestion. apply executes_only_try_except.
  - apply executes_only_bind; [apply executes_only_cursor_run|].
    intros _. apply executes_only_logger_info.
  - intros e. apply executes_only_logger_error.
Qed.

(** The index step and the vacuum step of [execute_optimization]. *)
Lemma executes_only_index_step (optimize_indexes : bool) :
  executes_only
    (if optimize_indexes then
       do suggestions <- suggest_indexes;
       for_each suggestions apply_suggestion
     else ret tt).
Proof.
  destruct optimize_indexes; [|apply executes_only_ret].
  apply executes_only_bind.
  - apply (executes_only_denotes _ _ denotes_suggest_indexes).
  - intros sugs. unfold for_each. apply executes_only_for_fold.
    intros _ sug. apply executes_only_apply_suggestion.
Qed.

Lemma executes_only_vacuum_step (vacuum : bool) :
  executes_only
    (if vacuum then
       cursor_run "VACUUM" ;;
       logger_info "Database vacuumed successfully"
     else ret tt).
Proof.
  destruct vacuum; [|apply executes_only_ret].
  apply executes_only_bind; [apply executes_only_cursor_run|].
  intros _. apply executes_only_logger_info.
Qed.

(** The end of a method whose body raised after a successful [connect()]. *)
Lemma closed_after_statements st st2 prefix e :
  runs_statements (after_connect st) st2 →
  let h := next_conn (world st) in
  let st' := after_close (after_except prefix e st2) in
  conn (self st') = Some h
  ∧ (h ∉ open_conns (world st'))
  ∧ open_conns (world st') ⊆ open_conns (world st)
  ∧ ∃ stmts, trace (world st')
             = trace (world st)
               ++ EvConnect (db_path (self st)) (Some h) :: (stmts ++ [EvClose h])
             ∧ trace (world st2)
               = trace (world st) ++ EvConnect (db_path (self st)) (Some h) :: stmts
             ∧ Forall (λ ev, is_execute ev = true) stmts.
Proof.
  intros [S O [evs [T X]]] h st'.
  destruct (after_except_frame prefix e st2) as (F1 & _ & F3 & F4 & _).
  assert (Hconn : conn (self (after_except prefix e st2)) = Some h)
    by (by rewrite F1, S).
  subst st'. unfold after_close. rewrite Hconn. cbn.
  split; [done|]. split; [set_solver|]. split.
  { rewrite F3, O. cbn. set_solver. }
  exists evs. split; [|split; [|done]].
  - rewrite F4, T. cbn. by rewrite <- !app_assoc.
  - rewrite T. cbn. by rewrite <- !app_assoc.
Qed.

Lemma closed_at_end st stx evs :
  let h := next_conn (world st) in
  self stx = self (after_connect st) →
  open_conns (world stx) = open_conns (world (after_connect st)) →
  trace (world stx)
  = trace (world st) ++ EvConnect (db_path (self st)) (Some h) :: evs →
  conn (self (after_close stx)) = Some h
  ∧ (h ∉ open_conns (world (after_close stx)))
  ∧ open_conns (world (after_close stx)) ⊆ open_conns (world st)
  ∧ trace (world (after_close stx))
    = trace (world st) ++ EvConnect (db_path (self st)) (Some h) :: (evs ++ [EvClose h]).
Proof.
  intros h S O T.
  assert (Hconn : conn (self stx) = Some h) by (by rewrite S).
  unfold after_close. rewrite Hconn. cbn.
  split; [done|]. split; [set_solver|]. split.
  { rewrite O. cbn. set_solver. }
  rewrite T. by rewrite <- !app_assoc.
Qed.

Lemma statements_after_connect st st2 :
  runs_statements (after_connect st) st2 →
  self st2 = self (after_connect st)
  ∧ open_conns (world st2) = open_conns (world (after_connect st))
  ∧ ∃ stmts, trace (world st2)
             = trace (world st)
               ++ EvConnect (db_path (self st)) (Some (next_conn (world st))) :: stmts
             ∧ Forall (λ ev, is_execute ev = true) stmts.
Proof.
  intros [S O [evs [T X]]]. split; [done|]. split; [done|].
  exists evs. split; [|done]. rewrite T. cbn. by rewrite <- !app_assoc.
Qed.

(** X12.  [execute_optimization], whatever its flags and whatever fails:
    at the end the connection the optimizer holds is closed and no
    connection is open that was not open before.  When [sqlite3.connect]
    has succeeded, the calls that follow are [execute] calls, then at most
    one commit, then the close of the connection; the method returns
    normally exactly when the commit was reached and succeeded, and
    otherwise raises without a successful commit. *)
Theorem execute_optimization_releases
    (optimize_indexes vacuum : bool) (st : State) :
  let r := (execute_optimization optimize_indexes vacuum st).1 in
  let st' := (execute_optimization optimize_indexes vacuum st).2 in
  (∀ h, conn (self st') = Some h → h ∉ open_conns (world st'))
  ∧ open_conns (world st') ⊆ open_conns (world st)
  ∧ (next_fault (world st) = None →
     let h := next_conn (world st) in
     ∃ stmts,
       Forall (λ ev, is_execute ev = true) stmts
       ∧ ((r = Return tt
           ∧ trace (world st')
             = trace (world st)
               ++ EvConnect (db_path (self st)) (Some h)
                  :: (stmts ++ [EvCommit h true; EvClose h]))
          ∨ (∃ e, r = Raise e
                  ∧ (trace (world st')
                     = trace (world st)
                       ++ EvConnect (db_path (self st)) (Some h)
                          :: (stmts ++ [EvClose h])
                     ∨ trace (world st')
                       = trace (world st)
                         ++ EvConnect (db_path (self st)) (Some h)
                            :: (stmts ++ [EvCommit h false; EvClose h]))))).
Proof.
  cbn zeta. rewrite execute_optimization_run.
  destruct (next_fault (world st)) as [e|] eqn:Hnf.
  { cbn [fst snd]. split; [|split; [|done]].
    - intros h. unfold after_close.
      destruct (conn (self (after_except _ e (connect_failed e st)))) as [h'|] eqn:Hc;
        [|by rewrite Hc].
      cbn. rewrite Hc. intros [= ->]. set_solver.
    - unfold after_close, after_except, connect_failed.
      destruct (is_Exception e), (is_sqlite3_Error e); cbn;
        destruct (conn (self st)); cbn; set_solver. }
  set (h := next_conn (world st)).
  set (prefix := "Error during optimization execution: ").
  (* every way the steps can end leads to the same kind of final state *)
  assert (Hend : ∀ stx evs,
    self stx = self (after_connect st) →
    open_conns (world stx) = open_conns (world (after_connect st)) →
    trace (world stx)
    = trace (world st) ++ EvConnect (db_path (self st)) (Some h) :: evs →
    ∀ e, let st' := after_close (after_except prefix e stx) in
         (∀ h', conn (self st') = Some h' → h' ∉ open_conns (world st'))
         ∧ open_conns (world st') ⊆ open_conns (world st)
         ∧ trace (world st')
           = trace (world st)
             ++ EvConnect (db_path (self st)) (Some h) :: (evs ++ [EvClose h])).
  { intros stx evs S O T e.
    destruct (after_except_frame prefix e stx) as (F1 & _ & F3 & F4 & _).
    destruct (closed_at_end st (after_except prefix e stx) evs)
      as (Hc & Hn & Hsub & Ht);
      [by rewrite F1|by rewrite F3|by rewrite F4|].
    cbn zeta. split; [|done].
    intros h'. rewrite Hc. by intros [= <-]. }
  set (A := if optimize_indexes then
               (do suggestions <- suggest_indexes;
                for_each suggestions apply_suggestion)
             else ret tt).
  set (B := if vacuum then
               (cursor_run "VACUUM" ;;
                logger_info "Database vacuumed successfully")
             else ret tt).
  change (optimization_steps optimize_indexes vacuum)
    with (bind A (λ _, bind B (λ _, conn_commit))).
  unfold bind.
  pose proof (executes_only_index_step optimize_indexes (after_connect st)) as RA.
  change (runs_statements (after_connect st) (A (after_connect st)).2) in RA.
  destruct (A (after_connect st)) as [[[]|e] stA]; cbn [fst snd] in *.
  2:{ destruct (statements_after_connect st stA RA) as (S & O & stmts & T & X).
      destruct (Hend stA stmts S O T e) as (H1 & H2 & H3).
      split; [done|]. split; [done|]. intros _.
      exists stmts. split; [done|]. right. exists e. split; [done|]. by left. }
  pose proof (executes_only_vacuum_step vacuum stA) as RB.
  change (runs_statements stA (B stA).2) in RB.
  destruct (B stA) as [[[]|e] stB]; cbn [fst snd] in *.
  2:{ destruct (statements_after_connect st stB (runs_statements_trans _ _ _ RA RB))
        as (S & O & stmts & T & X).
      destruct (Hend stB stmts S O T e) as (H1 & H2 & H3).
      split; [done|]. split; [done|]. intros _.
      exists stmts. split; [done|]. right. exists e. split; [done|]. by left. }
  destruct (statements_after_connect st stB (runs_statements_trans _ _ _ RA RB))
    as (S & O & stmts & T & X).
  unfold conn_commit. rewrite S. cbn [after_connect self conn].
  rewrite decide_True by (rewrite O; cbn; set_solver).
  destruct (next_fault (world stB)) as [e|]; cbn [fst snd].
  - destruct (Hend (mkState (self (after_connect st))
                      (called (EvCommit h false) (database (world stB)) (world stB)))
                   (stmts ++ [EvCommit h false])) with (e := e) as (H1 & H2 & H3);
      [done|done|cbn; rewrite T; by rewrite <- !app_assoc|].
    split; [done|]. split; [done|]. intros _.
    exists stmts. split; [done|]. right. exists e. split; [done|]. right.
    etrans; [exact H3|]. by rewrite <- !app_assoc.
  - destruct (closed_at_end st
                (mkState (self (after_connect st))
                   (called (EvCommit h true) (database (world stB)) (world stB)))
                (stmts ++ [EvCommit h true])) as (Hc & Hn & Hsub & Ht);
      [done|done|cbn; rewrite T; by rewrite <- !app_assoc|].
    split; [|split; [done|]].
    + intros h' Hh'. pose proof (eq_trans (eq_sym Hh') Hc) as [= ->]. exact Hn.
    + intros _. exists stmts. split; [done|]. left. split; [done|].
      etrans; [exact Ht|]. by rewrite <- !app_assoc.
Qed.

Lemma execute_optimization_releases_witness :
  let r := (execute_optimization true true strict_state).1 in
  let st' := (execute_optimization true true strict_state).2 in
  open_conns (world st') ⊆ ∅
  ∧ ∃ stmts,
      Forall (λ ev, is_execute ev = true) stmts
      ∧ ((r = Return tt
          ∧ trace (world st')
            = EvConnect "orders.db" (Some 0)
              :: (stmts ++ [EvCommit 0 true; EvClose 0]))
         ∨ (∃ e, r = Raise e
                 ∧ (trace (world st')
                    = EvConnect "orders.db" (Some 0) :: (stmts ++ [EvClose 0])
                    ∨ trace (world st')
                      = EvConnect "orders.db" (Some 0)
                        :: (stmts ++ [EvCommit 0 false; EvClose 0])))).
Proof.
  destruct (execute_optimization_releases true true strict_state)
    as (_ & Hsub & Htrace).
  split; [exact Hsub|exact (Htrace eq_refl)].
Defined.

Lemma for_fold_app {A B} (xs ys : list A) (body : B → A → Py B) : ∀ acc st,
  for_fold (xs ++ ys) acc body st
  = match for_fold xs acc body st with
    | (Return acc', st1) => for_fold ys acc' body st1
    | (Raise e, st1) => (Raise e, st1)
    end.
Proof.
  induction xs as [|x xs IH]; intros acc st; cbn [for_fold app]; [done|].
  unfold bind. destruct (body acc x st) as [[acc'|e] st1]; [apply IH|done].
Qed.

Lemma apply_suggestion_aborts suggestion st h e :
  cursor (self st) = Some h →
  h ∈ open_conns (world st) →
  next_fault (world st) = Some e →
  is_sqlite3_Error e = false →
  apply_suggestion suggestion st
  = (Raise e, mkState (self st)
                (called (EvExecute h (s_sql suggestion) false)
                   (database (world st)) (world st))).
Proof.
  intros Hc Ho Hf He.
  unfold apply_suggestion, try_except, bind, cursor_run, cursor_execute.
  by rewrite Hc, decide_True, Hf, He.
Qed.

Lemma next_fault_of_lookup w e :
  faults w !! 0%nat = Some (Some e) → next_fault w = Some e.
Proof.
  unfold next_fault. destruct (faults w) as [|[e'|] fs]; cbn; congruence.
Qed.

(** X13.  In the index loop of [execute_optimization] only an
    [sqlite3.Error] is survived.  When the statement of a suggestion raises
    an exception [e] that is not an [sqlite3.Error] (the suggestions before
    it having met [sqlite3.Error]s at worst), the loop is left at once: the
    suggestions after it are not attempted, neither [VACUUM] nor commit is
    called, the connection is closed and the method raises [e]. *)
Theorem execute_optimization_interrupted
    (st st1 st2 : State) (before : list IndexSuggestion)
    (suggestion : IndexSuggestion) (after : list IndexSuggestion) (e : PyExc) :
  connect st = (Return tt, st1) →
  suggest_indexes st1 = (Return (before ++ suggestion :: after), st2) →
  (∀ k e', (k < List.length before)%nat →
           faults (world st2) !! k = Some (Some e') → is_sqlite3_Error e' = true) →
  faults (world st2) !! List.length before = Some (Some e) →
  is_sqlite3_Error e = false →
  ∀ vacuum,
    let h := next_conn (world st) in
    let st' := (execute_optimization true vacuum st).2 in
    (execute_optimization true vacuum st).1 = Raise e
    ∧ (h ∉ open_conns (world st'))
    ∧ ∃ failures,
        List.length failures = List.length before
        ∧ trace (world st')
          = trace (world st2)
            ++ zip_with (attempt_event h) before failures
            ++ [EvExecute h (s_sql suggestion) false; EvClose h].
Proof.
  intros Hconnect Hsuggest Hfaults He Hcls vacuum h.
  destruct (connect_returns _ _ Hconnect) as [Hnf ->].
  destruct (suggest_indexes_returns _ _ _ Hsuggest) as [_ R].
  assert (Hcur : cursor (self st2) = Some h) by (by rewrite (ro_self _ _ R)).
  assert (Hconn : conn (self st2) = Some h) by (by rewrite (ro_self _ _ R)).
  assert (Hopen : h ∈ open_conns (world st2)).
  { rewrite (ro_open_conns _ _ R). cbn. set_solver. }
  pose proof (for_each_apply_suggestion before st2 h Hcur Hopen Hfaults) as Hloop.
  destruct (foldl_index_attempt h before (world st2))
    as (O & _ & F & failures & Hlen & T & _).
  set (w3 := foldl (λ w sug, index_attempt h (s_sql sug) w) (world st2) before) in *.
  assert (Hnf3 : next_fault w3 = Some e).
  { apply next_fault_of_lookup. rewrite F, lookup_drop.
    by rewrite Nat.add_0_r. }
  assert (Hfull : for_each (before ++ suggestion :: after) apply_suggestion st2
                  = (Raise e, mkState (self st2)
                                (called (EvExecute h (s_sql suggestion) false)
                                   (database w3) w3))).
  { unfold for_each in *. rewrite for_fold_app, Hloop.
    cbn [for_fold]. unfold bind.
    rewrite (apply_suggestion_aborts suggestion _ h e); try done.
    cbn. by rewrite O. }
  cbn zeta. rewrite execute_optimization_run, Hnf.
  unfold optimization_steps, bind. rewrite Hsuggest, Hfull. cbn [fst snd].
  split; [done|].
  unfold after_close, after_except.
  destruct (is_Exception e); cbn; rewrite Hconn; cbn.
  - split; [set_solver|]. exists failures. split; [done|].
    rewrite T. by rewrite <- !app_assoc.
  - split; [set_solver|]. exists failures. split; [done|].
    rewrite T. by rewrite <- !app_assoc.
Qed.

Lemma execute_optimization_interrupted_witness :
  (execute_optimization true true interrupted_state).1
  = Raise (mkExc NotAnException "KeyboardInterrupt")
  ∧ ∃ failures,
      List.length failures = 0%nat
      ∧ trace (world (execute_optimization true true interrupted_state).2)
        = trace (world (suggest_indexes (connect interrupted_state).2).2)
          ++ zip_with (attempt_event 0) [] failures
          ++ [EvExecute 0 "CREATE INDEX idx_orders_customer_id ON orders(customer_id)"
                false;
              EvClose 0].
Proof.
  edestruct (execute_optimization_interrupted interrupted_state)
    with (before := @nil IndexSuggestion) (vacuum := true) as (Hr & _ & Ht).
  - reflexivity.
  - reflexivity.
  - intros k e' Hk. cbn in Hk. lia.
  - reflexivity.
  - reflexivity.
  - split; [exact Hr|exact Ht].
Defined.

(** X14.  When [suggest_indexes] raises [e] inside [execute_optimization],
    the method raises [e] at once: after the catalogue reads made so far
    the only call is the close of the connection (no [CREATE INDEX], no
    [VACUUM], no commit), and the database is as it was whatever the
    engine. *)
Theorem execute_optimization_catalogue_failure
    (st st1 st2 : State) (e : PyExc) (vacuum : bool) :
  connect st = (Return tt, st1) →
  suggest_indexes st1 = (Raise e, st2) →
  let h := next_conn (world st) in
  let st' := (execute_optimization true vacuum st).2 in
  (execute_optimization true vacuum st).1 = Raise e
  ∧ database (world st') = database (world st)
  ∧ (h ∉ open_conns (world st'))
  ∧ trace (world st') = trace (world st2) ++ [EvClose h]
  ∧ (is_Exception e = true →
     (ERROR, "Error during optimization execution: " +:+ exc_str e)
     ∈ log (world st')).
Proof.
  intros Hconnect Hsuggest h.
  destruct (connect_returns _ _ Hconnect) as [Hnf ->].
  destruct (denotes_suggest_indexes (after_connect st)) as [R _].
  rewrite Hsuggest in R. cbn [snd] in R.
  assert (Hconn : conn (self st2) = Some h) by (by rewrite (ro_self _ _ R)).
  cbn zeta. rewrite execute_optimization_run, Hnf.
  unfold optimization_steps, bind. rewrite Hsuggest. cbn [fst snd].
  split; [done|].
  unfold after_close, after_except.
  destruct (is_Exception e); cbn; rewrite Hconn; cbn;
    rewrite (ro_database _ _ R); (split; [done|]); (split; [set_solver|]);
    (split; [done|]).
  - intros _. set_solver.
  - done.
Qed.

Lemma execute_optimization_catalogue_failure_witness :
  (execute_optimization true true unreadable_state).1
  = Raise (OperationalError "database is locked")
  ∧ trace (world (execute_optimization true true unreadable_state).2)
    = [EvConnect "shop.db" (Some 0);
       EvExecute 0 "SELECT name FROM sqlite_master WHERE type='table'" false;
       EvClose 0].
Proof.
  edestruct (execute_optimization_catalogue_failure unreadable_state)
    with (vacuum := true) as (Hr & _ & _ & Ht & _).
  - reflexivity.
  - reflexivity.
  - split; [exact Hr|exact Ht].
Defined.

(** ** The statements of a fault-free run *)

Lemma queried_nil h st : mkState (self st) (queried h [] (world st)) = st.
Proof.
  destruct st as [o w]. destruct w. unfold queried. cbn.
  by rewrite app_nil_r.
Qed.

Lemma queried_app h q1 q2 w : queried h q2 (queried h q1 w) = queried h (q1 ++ q2) w.
Proof. unfold queried. cbn. by rewrite fmap_app, app_assoc. Qed.

Lemma runs_on_ret {A} db (a : A) : runs_on db (ret a) a [].
Proof. intros st h _ _ _ _. unfold ret. by rewrite queried_nil. Qed.

Lemma runs_on_bind {A B} db (m : Py A) (k : A → Py B) a b q1 q2 :
  runs_on db m a q1 → runs_on db (k a) b q2 → runs_on db (bind m k) b (q1 ++ q2).
Proof.
  intros Hm Hk st h Hdb Hc Ho Hf. unfold bind.
  rewrite (Hm st h Hdb Hc Ho Hf).
  rewrite (Hk _ h); try done. cbn [self world]. by rewrite queried_app.
Qed.

Lemma runs_on_query {A} db sql (answer : Database → Outcome A) a :
  answer db = Return a → runs_on db (cursor_query sql answer) a [sql].
Proof.
  intros Ha st h Hdb Hc Ho Hf. unfold cursor_query, cursor_execute.
  rewrite Hc, decide_True by done.
  unfold next_fault. rewrite Hf, Hdb, Ha. cbn.
  do 2 f_equal. unfold called, queried. by rewrite Hf, Hdb.
Qed.

Lemma runs_on_for_fold {A B} db (xs : list A) (body : B → A → Py B)
    (g : B → A → B) (q : A → list string) :
  (∀ acc x, x ∈ xs → runs_on db (body acc x) (g acc x) (q x)) →
  ∀ acc, runs_on db (for_fold xs acc body) (foldl g acc xs) (xs ≫= q).
Proof.
  induction xs as [|x xs IH]; intros Hb acc; cbn [for_fold foldl].
  - apply runs_on_ret.
  - rewrite bind_cons. eapply runs_on_bind.
    + apply Hb. by left.
    + apply IH. intros acc' y Hy. apply Hb. by right.
Qed.

Lemma runs_on_analyze_table_structure db :
  pragmas_answered db →
  runs_on db analyze_table_structure (analysis_on db) (analyze_statements db).
Proof.
  intros Hans. unfold pragmas_answered in Hans. rewrite Forall_forall in Hans.
  unfold analyze_table_structure, analyze_statements.
  apply (runs_on_bind db _ _ (master_table_names db) _ [table_list_sql]).
  { by apply runs_on_query. }
  apply (runs_on_for_fold db _ _
           (λ analysis t, <[t := mkAnalysis (table_info t db) (index_list t db)
                                   (foreign_key_list t db)]> analysis)).
  intros acc t Ht. destruct (Hans t Ht) as (H1 & H2 & H3).
  apply (runs_on_bind db _ _ (table_info t db) _ [_] [_; _]);
    [apply runs_on_query; by apply is_Return_rows_of|].
  apply (runs_on_bind db _ _ (index_list t db) _ [_] [_]);
    [apply runs_on_query; by apply is_Return_rows_of|].
  apply (runs_on_bind db _ _ (foreign_key_list t db) _ [_] []);
    [apply runs_on_query; by apply is_Return_rows_of|].
  apply runs_on_ret.
Qed.

Lemma runs_on_check_normalization db :
  samples_answered db →
  runs_on db check_normalization (issues_on db) (check_statements db).
Proof.
  intros Hans. unfold samples_answered in Hans. rewrite Forall_forall in Hans.
  unfold check_normalization, check_statements.
  apply (runs_on_bind db _ _ (master_table_names db) _ [table_list_sql]).
  { by apply runs_on_query. }
  assert (Hval : foldl (λ issues t,
                          issues ++ (table_info t db ≫= λ col,
                            samples_of t (col_name col) db
                            ≫= issues_for t (col_name col)))
                       [] (master_table_names db)
                 = issues_on db).
  { unfold issues_on. generalize (master_table_names db).
    intros l. rewrite <- (app_nil_l (l ≫= _)). generalize (@nil NormalizationIssue).
    induction l as [|t l IH]; intros acc; cbn [foldl].
    - by rewrite app_nil_r.
    - rewrite IH, bind_cons. by rewrite <- app_assoc. }
  rewrite <- Hval.
  apply runs_on_for_fold. intros acc t Ht. destruct (Hans t Ht) as [Hti Hsel].
  rewrite Forall_forall in Hsel.
  apply (runs_on_bind db _ _ (table_info t db) _ [_]);
    [apply runs_on_query; by apply is_Return_rows_of|].
  assert (Hcols : ∀ cols acc,
    (∀ col, col ∈ cols → col ∈ table_info t db) →
    runs_on db
      (for_fold cols acc (λ issues column,
         do samples <- select_samples (col_name column) t;
         ret (foldl (check_sample t (col_name column)) issues samples)))
      (acc ++ (cols ≫= λ col,
               samples_of t (col_name col) db ≫= issues_for t (col_name col)))
      (cols ≫= λ col,
       ["SELECT " +:+ col_name col +:+ " FROM " +:+ t +:+ " LIMIT 100"])).
  { induction cols as [|col cols IH]; intros acc' Hin; cbn [for_fold].
    - rewrite app_nil_r. apply runs_on_ret.
    - rewrite !bind_cons, app_assoc.
      eapply runs_on_bind; [|apply IH; intros c Hc; apply Hin; by right].
      rewrite <- (app_nil_r [_]).
      eapply runs_on_bind.
      + apply runs_on_query.
        apply (is_Return_rows_of (select_answer db (sample_sql (col_name col) t))).
        apply Hsel, Hin. by left.
      + rewrite foldl_check_sample. apply runs_on_ret. }
  apply Hcols. done.
Qed.

Lemma runs_on_suggest_indexes db :
  pragmas_answered db →
  runs_on db suggest_indexes (suggestions_on db) (suggest_statements db).
Proof.
  intros Hans. unfold pragmas_answered in Hans. rewrite Forall_forall in Hans.
  unfold suggest_indexes, suggest_statements.
  apply (runs_on_bind db _ _ (master_table_names db) _ [table_list_sql]).
  { by apply runs_on_query. }
  assert (Hval : foldl (λ sugs t,
                          sugs ++ (foreign_key_list t db ≫= suggestions_for t db))
                       [] (master_table_names db)
                 = suggestions_on db).
  { unfold suggestions_on. generalize (master_table_names db).
    intros l. rewrite <- (app_nil_l (l ≫= _)). generalize (@nil IndexSuggestion).
    induction l as [|t l IH]; intros acc; cbn [foldl].
    - by rewrite app_nil_r.
    - rewrite IH, bind_cons. by rewrite <- app_assoc. }
  rewrite <- Hval.
  apply runs_on_for_fold. intros acc t Ht. destruct (Hans t Ht) as (H1 & H2 & H3).
  apply (runs_on_bind db _ _ (index_list t db) _ [_] [_; _]);
    [apply runs_on_query; by apply is_Return_rows_of|].
  apply (runs_on_bind db _ _ (table_info t db) _ [_] [_]);
    [apply runs_on_query; by apply is_Return_rows_of|].
  apply (runs_on_bind db _ _ (foreign_key_list t db) _ [_] []);
    [apply runs_on_query; by apply is_Return_rows_of|].
  rewrite foldl_suggest_for_fk. apply runs_on_ret.
Qed.

Lemma runs_on_build_report db :
  pragmas_answered db → samples_answered db →
  runs_on db build_report (report_on db)
    (analyze_statements db ++ check_statements db ++ suggest_statements db).
Proof.
  intros Hp Hs. unfold build_report.
  eapply runs_on_bind; [by apply runs_on_analyze_table_structure|].
  eapply runs_on_bind; [by apply runs_on_check_normalization|].
  rewrite <- (app_nil_r (suggest_statements db)).
  eapply runs_on_bind; [by apply runs_on_suggest_indexes|].
  rewrite <- (app_nil_r []).
  eapply runs_on_bind; [apply runs_on_ret|].
  apply runs_on_ret.
Qed.

Lemma length_bind_const {A B} (f : A → list B) (n : nat) (l : list A) :
  (∀ x, List.length (f x) = n) → List.length (l ≫= f) = (n * List.length l)%nat.
Proof.
  intros Hf. induction l as [|x l IH]; [cbn; lia|].
  rewrite bind_cons, length_app, IH, Hf. cbn. lia.
Qed.

Lemma length_check_statements {A B C} (x : A → C) (cols : A → list B)
    (y : A → B → C) (ts : list A) :
  List.length (ts ≫= λ t, x t :: (cols t ≫= λ c, [y t c]))
  = (List.length ts + List.length (ts ≫= cols))%nat.
Proof.
  induction ts as [|t ts IH]; [done|].
  rewrite !bind_cons, !length_app, IH. cbn [List.length].
  rewrite (length_bind_const _ 1) by done. lia.
Qed.

(** X15.  In a healthy state, when SQLite answers the statements written
    for the tables (and, for [check_normalization], their columns), each
    analysis executes exactly the following statements in this order: the
    table list, and then for every table its three pragmas
    ([analyze_table_structure] and [suggest_indexes], in their own orders)
    or its [table_info] pragma and one [SELECT ... LIMIT 100] per column
    ([check_normalization]).  So the first and the last execute 1 + 3n
    statements for n tables. *)
Theorem analyses_statements (st : State) (h : ConnId) :
  cursor (self st) = Some h →
  h ∈ open_conns (world st) →
  faults (world st) = [] →
  let db := database (world st) in
  let executed sqls := trace (world st) ++ ((λ sql, EvExecute h sql true) <$> sqls) in
  (pragmas_answered db →
   trace (world (analyze_table_structure st).2) = executed (analyze_statements db)
   ∧ trace (world (suggest_indexes st).2) = executed (suggest_statements db))
  ∧ (samples_answered db →
     trace (world (check_normalization st).2) = executed (check_statements db))
  ∧ List.length (analyze_statements db)
    = (1 + 3 * List.length (master_table_names db))%nat
  ∧ List.length (suggest_statements db)
    = (1 + 3 * List.length (master_table_names db))%nat
  ∧ List.length (check_statements db)
    = (1 + List.length (master_table_names db)
       + List.length (master_table_names db ≫= λ t, table_info t db))%nat.
Proof.
  intros Hc Ho Hf db executed.
  split.
  { intros Hp.
    rewrite (runs_on_analyze_table_structure db Hp st h eq_refl Hc Ho Hf).
    by rewrite (runs_on_suggest_indexes db Hp st h eq_refl Hc Ho Hf). }
  split.
  { intros Hs.
    by rewrite (runs_on_check_normalization db Hs st h eq_refl Hc Ho Hf). }
  unfold analyze_statements, suggest_statements, check_statements.
  cbn [List.length].
  rewrite !(length_bind_const _ 3) by done.
  repeat (split; [lia|]).
  rewrite (length_check_statements
             (λ t, "PRAGMA table_info(" +:+ t +:+ ")")
             (λ t, table_info t db)
             (λ t col, "SELECT " +:+ col_name col +:+ " FROM " +:+ t +:+ " LIMIT 100")).
  lia.
Qed.

Lemma analyses_statements_witness :
  trace (world (suggest_indexes (connected shop_db [])).2)
  = [EvConnect "shop.db" (Some 0);
     EvExecute 0 "SELECT name FROM sqlite_master WHERE type='table'" true;
     EvExecute 0 "PRAGMA index_list(customers)" true;
     EvExecute 0 "PRAGMA table_info(customers)" true;
     EvExecute 0 "PRAGMA foreign_key_list(customers)" true;
     EvExecute 0 "PRAGMA index_list(orders)" true;
     EvExecute 0 "PRAGMA table_info(orders)" true;
     EvExecute 0 "PRAGMA foreign_key_list(orders)" true].
Proof.
  destruct (analyses_statements (connected shop_db []) 0 eq_refl)
    as (Hp & _); [cbn; set_solver|reflexivity|].
  exact (proj2 (Hp (proj1 shop_db_answered))).
Defined.

(** X16.  With no fault scheduled and a database on which SQLite answers
    the statements written for the tables and columns,
    [generate_optimization_report] returns the report and
    makes exactly these calls: connect; the statements of
    [analyze_table_structure], of [check_normalization] and of
    [suggest_indexes], all with success (the table list is read three times
    and [PRAGMA table_info] three times per table); close.  It logs the
    connection and the close and nothing else. *)
Theorem generate_optimization_report_statements (st : State) :
  faults (world st) = [] →
  pragmas_answered (database (world st)) →
  samples_answered (database (world st)) →
  let db := database (world st) in
  let h := next_conn (world st) in
  let st' := (generate_optimization_report st).2 in
  (generate_optimization_report st).1 = Return (report_on db)
  ∧ trace (world st')
    = trace (world st)
      ++ EvConnect (db_path (self st)) (Some h)
         :: ((λ sql, EvExecute h sql true)
               <$> (analyze_statements db ++ check_statements db
                    ++ suggest_statements db))
         ++ [EvClose h]
  ∧ log (world st')
    = log (world st)
      ++ [(INFO, "Successfully connected to database: " +:+ db_path (self st));
          (INFO, "Database connection closed")].
Proof.
  intros Hf Hp Hs db h st'. subst st'.
  rewrite generate_optimization_report_run.
  unfold next_fault. rewrite Hf.
  rewrite (runs_on_build_report db Hp Hs (after_connect st) h); try done.
  - cbn. repeat split; try done.
    + by rewrite <- !app_assoc.
    + by rewrite <- !app_assoc.
  - cbn. set_solver.
  - cbn. by rewrite Hf.
Qed.

Lemma generate_optimization_report_statements_witness :
  log (world (generate_optimization_report shop_state).2)
  = [(INFO, "Successfully connected to database: shop.db");
     (INFO, "Database connection closed")]
  ∧ List.length (trace (world (generate_optimization_report shop_state).2)) = 24%nat.
Proof.
  destruct (generate_optimization_report_statements shop_state eq_refl
              (proj1 shop_db_answered) (proj2 shop_db_answered))
    as (_ & Ht & Hl).
  split; [exact Hl|]. rewrite Ht. reflexivity.
Defined.

(** ** What the index advisor depends on *)

Lemma suggest_for_fk_from t ex ex' fk fk' :
  ex = ex' → fk_from fk = fk_from fk' →
  suggest_for_fk t ex [] fk = suggest_for_fk t ex' [] fk'.
Proof. intros -> H. unfold suggest_for_fk. by rewrite H. Qed.

Lemma bind_fmap_eq {A B C} (p : A → B) (f g : A → list C) (l1 l2 : list A) :
  (∀ x y, p x = p y → f x = g y) →
  p <$> l1 = p <$> l2 → l1 ≫= f = l2 ≫= g.
Proof.
  intros Hfg. revert l2. induction l1 as [|x l1 IH]; intros [|y l2] H;
    try done.
  injection H as Hxy Hl. rewrite !bind_cons. f_equal; [by apply Hfg|by apply IH].
Qed.

Lemma suggestions_on_names db1 db2 :
  master_table_names db1 = master_table_names db2 →
  (∀ t, t ∈ master_table_names db1 →
        ∀ n, n ∈ (il_name <$> index_list t db1) ↔ n ∈ (il_name <$> index_list t db2)) →
  (∀ t, t ∈ master_table_names db1 →
        fk_from <$> foreign_key_list t db1 = fk_from <$> foreign_key_list t db2) →
  suggestions_on db1 = suggestions_on db2.
Proof.
  intros Hn Hi Hf. unfold suggestions_on. rewrite <- Hn.
  apply Forall_bind_ext, Forall_forall. intros t Ht.
  apply (bind_fmap_eq fk_from); [|by apply Hf].
  intros fk fk' Hfk. unfold suggestions_for.
  apply suggest_for_fk_from; [|done].
  unfold existing_indexes_of. apply set_eq. intros n.
  rewrite !elem_of_list_to_set. by apply Hi.
Qed.

(** X17.  The suggestions depend on the schema only through the names of
    the tables, the names of the indexes of each table and the referencing
    columns of its foreign keys: two runs of [suggest_indexes] on databases
    that agree on these return the same suggestions, whatever the columns,
    the stored rows, the referenced tables or the indexed columns. *)
Theorem suggest_indexes_depends_on_names
    (st1 st2 : State) (s1 s2 : list IndexSuggestion) (st1' st2' : State) :
  let db1 := database (world st1) in
  let db2 := database (world st2) in
  master_table_names db1 = master_table_names db2 →
  (∀ t, t ∈ master_table_names db1 →
        ∀ n, n ∈ (il_name <$> index_list t db1) ↔ n ∈ (il_name <$> index_list t db2)) →
  (∀ t, t ∈ master_table_names db1 →
        fk_from <$> foreign_key_list t db1 = fk_from <$> foreign_key_list t db2) →
  suggest_indexes st1 = (Return s1, st1') →
  suggest_indexes st2 = (Return s2, st2') →
  s1 = s2.
Proof.
  intros db1 db2 Hn Hi Hf E1 E2.
  destruct (suggest_indexes_returns _ _ _ E1) as [-> _].
  destruct (suggest_indexes_returns _ _ _ E2) as [-> _].
  by apply suggestions_on_names.
Qed.

Lemma shop_db_variant_answered : pragmas_answered shop_db_variant.
Proof. compute_done. Qed.

Lemma suggest_indexes_depends_on_names_witness :
  (suggest_indexes (connected shop_db [])).1
  = (suggest_indexes (connected shop_db_variant [])).1.
Proof.
  destruct (suggest_indexes_healthy (connected shop_db []) (connected_healthy _)
              (proj1 shop_db_answered)) as [st1' [E1 _]].
  destruct (suggest_indexes_healthy (connected shop_db_variant [])
              (connected_healthy _) shop_db_variant_answered) as [st2' [E2 _]].
  assert (Hi : ∀ t, t ∈ master_table_names shop_db →
            ∀ n, n ∈ (il_name <$> index_list t shop_db)
                 ↔ n ∈ (il_name <$> index_list t shop_db_variant)).
  { intros t Ht n. cbn in Ht.
    apply elem_of_cons in Ht as [->|Ht]; [done|].
    apply elem_of_cons in Ht as [->|Ht]; [done|].
    by apply elem_of_nil in Ht. }
  assert (Hf : ∀ t, t ∈ master_table_names shop_db →
            fk_from <$> foreign_key_list t shop_db
            = fk_from <$> foreign_key_list t shop_db_variant).
  { intros t Ht. cbn in Ht.
    apply elem_of_cons in Ht as [->|Ht]; [done|].
    apply elem_of_cons in Ht as [->|Ht]; [done|].
    by apply elem_of_nil in Ht. }
  pose proof (suggest_indexes_depends_on_names
                (connected shop_db []) (connected shop_db_variant [])
                _ _ _ _ eq_refl Hi Hf E1 E2) as Heq.
  rewrite E1, E2. exact (f_equal Return Heq).
Defined.

(** ** The effect of the executor *)

Lemma foldl_index_attempt_database h suggestions : ∀ w,
  faults w = [] →
  let w' := foldl (λ w suggestion, index_attempt h (s_sql suggestion) w)
                  w suggestions in
  database w' = apply_all (engine w) (database w) (s_sql <$> suggestions)
  ∧ faults w' = []
  ∧ engine w' = engine w.
Proof.
  induction suggestions as [|sug sugs IH]; intros w Hf; cbn [foldl]; [done|].
  assert (Hf1 : faults (index_attempt h (s_sql sug) w) = []).
  { destruct (index_attempt_frame h (s_sql sug) w) as (_ & _ & _ & F).
    by rewrite F, Hf. }
  destruct (index_attempt_frame h (s_sql sug) w) as (_ & E & _ & _).
  destruct (IH _ Hf1) as (D' & F' & E').
  cbn zeta. rewrite D', F', E', E. split; [|done].
  unfold apply_all. cbn [fmap list_fmap foldl]. f_equal.
  unfold index_attempt, next_fault. rewrite Hf.
  by destruct (engine w (s_sql sug) (database w)).
Qed.

(** X18.  With no fault scheduled and a database on which SQLite answers
    the three pragmas written for every listed table,
    [execute_optimization(optimize_indexes=True, vacuum=False)] returns,
    and the database it leaves is the one the engine makes by being handed
    the statements of the suggestions of [suggest_indexes] one after the
    other, a rejected statement changing nothing; with [vacuum=True] and an
    engine that then applies [VACUUM], the method returns and leaves the
    vacuumed database. *)
Theorem execute_optimization_effect (st : State) :
  faults (world st) = [] →
  pragmas_answered (database (world st)) →
  let db := database (world st) in
  let indexed := apply_all (engine (world st)) db (s_sql <$> suggestions_on db) in
  ((execute_optimization true false st).1 = Return tt
   ∧ database (world (execute_optimization true false st).2) = indexed)
  ∧ (∀ db', engine (world st) "VACUUM" indexed = Applied db' →
       (execute_optimization true true st).1 = Return tt
       ∧ database (world (execute_optimization true true st).2) = db').
Proof.
  intros Hf Hans db indexed.
  set (h := next_conn (world st)).
  assert (Hnf : next_fault (world st) = None) by (unfold next_fault; by rewrite Hf).
  assert (Hsug : suggest_indexes (after_connect st)
                 = (Return (suggestions_on db),
                    mkState (self (after_connect st))
                      (queried h (suggest_statements db) (world (after_connect st))))).
  { apply (runs_on_suggest_indexes db Hans); try done.
    - cbn. set_solver.
    - cbn. by rewrite Hf. }
  set (st2 := mkState (self (after_connect st))
                (queried h (suggest_statements db) (world (after_connect st)))) in *.
  assert (Hf2 : faults (world st2) = []) by (cbn; by rewrite Hf).
  assert (Hopen2 : h ∈ open_conns (world st2)) by (cbn; set_solver).
  pose proof (for_each_apply_suggestion (suggestions_on db) st2 h eq_refl Hopen2)
    as Hloop.
  rewrite Hf2 in Hloop.
  specialize (Hloop ltac:(intros k e _ Hk; by rewrite lookup_nil in Hk)).
  destruct (foldl_index_attempt h (suggestions_on db) (world st2)) as (O & _).
  destruct (foldl_index_attempt_database h (suggestions_on db) (world st2) Hf2)
    as (D & F & E).
  set (w3 := foldl (λ w sug, index_attempt h (s_sql sug) w) (world st2)
               (suggestions_on db)) in *.
  assert (Hopen3 : h ∈ open_conns w3) by (by rewrite O).
  assert (Hnf3 : next_fault w3 = None) by (unfold next_fault; by rewrite F).
  split.
  - rewrite execute_optimization_run, Hnf.
    unfold optimization_steps, bind. rewrite Hsug, Hloop. unfold ret.
    rewrite (conn_commit_run _ h); [|done|done|done].
    cbn [fst snd]. split; [done|].
    unfold after_close. cbn. exact D.
  - intros db' Hvac.
    rewrite execute_optimization_run, Hnf.
    unfold optimization_steps, bind. rewrite Hsug, Hloop.
    rewrite (cursor_run_applied "VACUUM" _ h db'); [|done|done|done|].
    2:{ cbn [world]. rewrite E, D. exact Hvac. }
    unfold logger_info.
    rewrite (conn_commit_run _ h); [|done|done|].
    2:{ cbn. unfold next_fault. cbn. by rewrite F. }
    cbn [fst snd]. split; [done|].
    unfold after_close. cbn. done.
Qed.

Lemma three_fk_db_answered : pragmas_answered three_fk_db.
Proof. compute_done. Qed.

Lemma execute_optimization_effect_witness :
  (execute_optimization true false strict_state).1 = Return tt
  ∧ (m_name <$> sqlite_master
       (database (world (execute_optimization true false strict_state).2)))
    = ["orders";
       "CREATE INDEX idx_orders_customer_id ON orders(customer_id)";
       "CREATE INDEX idx_orders_item_id ON orders(item_id)"].
Proof.
  destruct (execute_optimization_effect strict_state eq_refl three_fk_db_answered)
    as [[Hr Hd] _].
  split; [exact Hr|]. rewrite Hd. reflexivity.
Defined.

(** ** Statements SQLite refuses *)

Lemma query_refused {A} sql (answer : Database → Outcome A) st h e :
  cursor (self st) = Some h →
  h ∈ open_conns (world st) →
  faults (world st) = [] →
  answer (database (world st)) = Raise e →
  cursor_query sql answer st
  = (Raise e,
     mkState (self st)
       (called (EvExecute h sql false) (database (world st)) (world st))).
Proof.
  intros Hc Ho Hf Ha. unfold cursor_query, cursor_execute.
  rewrite Hc, decide_True by done.
  unfold next_fault. by rewrite Hf, Ha.
Qed.

(** X19.  The names are written into the statements as they are, and
    SQLite may refuse the result (as it does for a table named [order]).
    When it refuses the [PRAGMA table_info] written for the first table
    listed, [generate_optimization_report], run with no other failure,
    raises the error of SQLite after exactly four calls (connect, the table
    list, the refused pragma, close); the error is logged by the handler of
    the method when it is an [Exception], the connection is closed and the
    database is as it was. *)
Theorem generate_optimization_report_refused_pragma
    (st : State) (t : string) (rest : list string) (e : PyExc) :
  faults (world st) = [] →
  let db := database (world st) in
  let h := next_conn (world st) in
  master_table_names db = t :: rest →
  table_info_answer db ("PRAGMA table_info(" +:+ t +:+ ")") = Raise e →
  let st' := (generate_optimization_report st).2 in
  (generate_optimization_report st).1 = Raise e
  ∧ trace (world st')
    = trace (world st)
      ++ [EvConnect (db_path (self st)) (Some h);
          EvExecute h "SELECT name FROM sqlite_master WHERE type='table'" true;
          EvExecute h ("PRAGMA table_info(" +:+ t +:+ ")") false;
          EvClose h]
  ∧ log (world st')
    = log (world st)
      ++ [(INFO, "Successfully connected to database: " +:+ db_path (self st))]
      ++ (if is_Exception e
          then [(ERROR, "Error generating optimization report: " +:+ exc_str e)]
          else [])
      ++ [(INFO, "Database connection closed")]
  ∧ (h ∉ open_conns (world st'))
  ∧ database (world st') = db.
Proof.
  intros Hf db h Hnames Hrefused st'. subst st'.
  rewrite generate_optimization_report_run.
  unfold next_fault. rewrite Hf.
  assert (Hopen : h ∈ open_conns (world (after_connect st))) by (cbn; set_solver).
  assert (Hf1 : faults (world (after_connect st)) = []) by (cbn; by rewrite Hf).
  assert (Hlist : select_table_names (after_connect st)
                  = (Return (t :: rest),
                     mkState (self (after_connect st))
                       (queried h [table_list_sql] (world (after_connect st))))).
  { rewrite <- Hnames.
    by apply (runs_on_query db table_list_sql (λ db, Return (master_table_names db))). }
  set (st1 := mkState (self (after_connect st))
                (queried h [table_list_sql] (world (after_connect st)))) in *.
  assert (Hpragma : pragma_table_info t st1
                    = (Raise e,
                       mkState (self st1)
                         (called (EvExecute h (table_info_sql t) false)
                            (database (world st1)) (world st1)))).
  { by apply query_refused. }
  assert (Hbody : build_report (after_connect st)
                  = (Raise e,
                     mkState (self st1)
                       (called (EvExecute h (table_info_sql t) false)
                          (database (world st1)) (world st1)))).
  { unfold build_report, analyze_table_structure, bind.
    rewrite Hlist. cbn [for_fold]. unfold bind. by rewrite Hpragma. }
  rewrite Hbody. cbn [fst snd].
  unfold after_close, after_except.
  destruct (is_Exception e); cbn; rewrite <- ?app_assoc; cbn.
  - repeat (split; [done|]). split; [set_solver|done].
  - repeat (split; [done|]). split; [set_solver|done].
Qed.

Lemma generate_optimization_report_refused_pragma_witness :
  (generate_optimization_report
     (mkState (init "shop.db") (fresh_world keyword_db []))).1
  = Raise (OperationalError "near order: syntax error")
  ∧ log (world (generate_optimization_report
                  (mkState (init "shop.db") (fresh_world keyword_db []))).2)
    = [(INFO, "Successfully connected to database: shop.db");
       (ERROR, "Error generating optimization report: near order: syntax error");
       (INFO, "Database connection closed")].
Proof.
  destruct (generate_optimization_report_refused_pragma
              (mkState (init "shop.db") (fresh_world keyword_db []))
              "order" [] (OperationalError "near order: syntax error")
              eq_refl eq_refl eq_refl)
    as (Hr & _ & Hl & _).
  split; [exact Hr|exact Hl].
Defined.
